(** * ICO container generation (dist/lib/ico.js)

    A shallow embedding of the ICO writer: Node [Buffer] accessors with their
    range checks, the three fixed-layout builders, the pixel converter with
    its two nested loops, the stream the chunks are written to, and the
    top-level [generateICO] with its filesystem effects.

    The file system is a map from paths to contents, without permissions:
    [fs.unlinkSync] fails only on a missing file. What the size filter, the
    decoder and the write stream do is given by an environment. *)

From Stdlib Require Import ZArith Lia List.
From stdpp Require Import base list list_numbers strings gmap.

Local Open Scope Z_scope.

(** ** Outcomes of fallible code *)

(** Errors a run can raise. *)
Inductive error : Type :=
| ERR_OUT_OF_RANGE
    (* RangeError of a Buffer accessor: value or offset out of range *)
| ENOENT
    (* fs.unlinkSync on a path that does not exist *)
| NoMatchingPNG
    (* Error('There was no PNG file matching the specified size.') *)
| External (code : string).
    (* raised by a collaborator: the decoder, the file read, the stream *)

(** Result of running a piece of code that may throw. The loops of the
    pixel converter are run with fuel; [OutOfFuel] is the model giving up,
    not a behaviour of the program. *)
Inductive outcome (A : Type) : Type :=
| Ok (a : A)
| Throw (e : error)
| OutOfFuel.

Arguments Ok {A} a.
Arguments Throw {A} e.
Arguments OutOfFuel {A}.

Definition bind {A B : Type} (x : outcome A) (f : A -> outcome B) : outcome B :=
  match x with
  | Ok a => f a
  | Throw e => Throw e
  | OutOfFuel => OutOfFuel
  end.

Notation "'do' x <- e1 ; e2" := (bind e1 (fun x => e2))
  (at level 10, x name, e1 at level 100, e2 at level 200).
Notation "'do' ( x , y ) <- e1 ; e2" := (bind e1 (fun '(x, y) => e2))
  (at level 10, x name, y name, e1 at level 100, e2 at level 200).

(** ** Node Buffers *)

Abbreviation byte := Byte.byte.
Abbreviation Buffer := (list Byte.byte).

Definition zero_byte : byte := Byte.x00.

(** The byte holding the low eight bits of [v]. *)
Definition byte_of (v : Z) : byte :=
  match Byte.of_N (Z.to_N (Z.land v 255)) with
  | Some b => b
  | None => zero_byte
  end.

Definition byte_val (b : byte) : Z := Z.of_N (Byte.to_N b).

(** [buf.length] *)
Definition buf_length (b : Buffer) : Z := Z.of_nat (length b).

(** [Buffer.alloc(size)]: a zero-filled buffer. Every call site passes a
    constant or a length, so the size is never negative. *)
Definition alloc (size : Z) : Buffer := replicate (Z.to_nat size) zero_byte.

(** An access of [n] bytes at [offset] is inside the buffer. *)
Definition in_bounds (b : Buffer) (offset n : Z) : bool :=
  (0 <=? offset) && (offset + n <=? buf_length b).

(** Stores the [n] low bytes of [v] at [offset], least significant first,
    as the write accessors do ([buf[offset++] = value; value >>>= 8]). *)
Fixpoint store_le (n : nat) (b : Buffer) (v : Z) (offset : nat) : Buffer :=
  match n with
  | O => b
  | S n' => store_le n' (<[offset := byte_of v]> b) (Z.shiftr v 8) (S offset)
  end.

(** Reads [n] bytes at [offset] as an unsigned little-endian number. *)
Fixpoint load_le (n : nat) (b : Buffer) (offset : nat) : Z :=
  match n with
  | O => 0
  | S n' => match b !! offset with
            | Some x => byte_val x + 256 * load_le n' b (S offset)
            | None => 0
            end
  end.

Definition write_int (n : nat) (lo hi : Z) (b : Buffer) (value offset : Z)
  : outcome Buffer :=
  if (lo <=? value) && (value <=? hi) && in_bounds b offset (Z.of_nat n)
  then Ok (store_le n b value (Z.to_nat offset))
  else Throw ERR_OUT_OF_RANGE.

(** [b.writeUInt8(value, offset)] *)
Definition writeUInt8 (b : Buffer) (value offset : Z) : outcome Buffer :=
  write_int 1 0 255 b value offset.

(** [b.writeUInt16LE(value, offset)] *)
Definition writeUInt16LE (b : Buffer) (value offset : Z) : outcome Buffer :=
  write_int 2 0 65535 b value offset.

(** [b.writeUInt32LE(value, offset)] *)
Definition writeUInt32LE (b : Buffer) (value offset : Z) : outcome Buffer :=
  write_int 4 0 4294967295 b value offset.

(** [b.writeInt32LE(value, offset)] *)
Definition writeInt32LE (b : Buffer) (value offset : Z) : outcome Buffer :=
  write_int 4 (-2147483648) 2147483647 b value offset.

Definition read_uint (n : nat) (b : Buffer) (offset : Z) : outcome Z :=
  if in_bounds b offset (Z.of_nat n)
  then Ok (load_le n b (Z.to_nat offset))
  else Throw ERR_OUT_OF_RANGE.

(** [b.readUInt8(offset)] *)
Definition readUInt8 (b : Buffer) (offset : Z) : outcome Z := read_uint 1 b offset.

(** [b.readUInt16LE(offset)] *)
Definition readUInt16LE (b : Buffer) (offset : Z) : outcome Z := read_uint 2 b offset.

(** [b.readUInt32LE(offset)] *)
Definition readUInt32LE (b : Buffer) (offset : Z) : outcome Z := read_uint 4 b offset.

(** [b.readInt32LE(offset)]: the unsigned value read as two's complement. *)
Definition readInt32LE (b : Buffer) (offset : Z) : outcome Z :=
  do u <- read_uint 4 b offset;
  Ok (if 2147483648 <=? u then u - 4294967296 else u).

(** ** Constants of the module *)

(** Sizes required for the ICO file. *)
Definition REQUIRED_IMAGE_SIZES : list Z := [16; 24; 32; 48; 64; 128; 256].
(** Default name of ICO file. *)
Definition DEFAULT_FILE_NAME : string := "app".
(** File extension of ICO file. *)
Definition FILE_EXTENSION : string := ".ico".
(** Size of the file header. *)
Definition FILE_HEADER_SIZE : Z := 6.
(** Size of the icon directory. *)
Definition ICO_DIRECTORY_SIZE : Z := 16.
(** Size of the BITMAPINFOHEADER. *)
Definition BITMAPINFOHEADER_SIZE : Z := 40.
(** Color mode of BITMAPINFOHEADER. *)
Definition BI_RGB : Z := 0.
(** BPP for Alpha PNG (RGB = 4). *)
Definition BPP_ALPHA : Z := 4.

(** A decoded image, as [PNG.sync.read] returns it. *)
Record PNG : Type := mkPNG { width : Z; height : Z; data : Buffer }.

(** ** The fixed-layout builders *)

Definition createBitmapInfoHeader (png : PNG) (compression : Z) : outcome Buffer :=
  let b := alloc BITMAPINFOHEADER_SIZE in
  do b <- writeUInt32LE b BITMAPINFOHEADER_SIZE 0;
  do b <- writeInt32LE b (width png) 4;
  do b <- writeInt32LE b (height png * 2) 8;
  do b <- writeUInt16LE b 1 12;
  do b <- writeUInt16LE b (BPP_ALPHA * 8) 14;
  do b <- writeUInt32LE b compression 16;
  do b <- writeUInt32LE b (buf_length (data png)) 20;
  do b <- writeInt32LE b 0 24;
  do b <- writeInt32LE b 0 28;
  do b <- writeUInt32LE b 0 32;
  do b <- writeUInt32LE b 0 36;
  Ok b.

Definition createDirectory (png : PNG) (offset : Z) : outcome Buffer :=
  let b := alloc ICO_DIRECTORY_SIZE in
  let size := buf_length (data png) + BITMAPINFOHEADER_SIZE in
  let width := if 256 <=? width png then 0 else width png in
  let height := if 256 <=? height png then 0 else height png in
  let bpp := BPP_ALPHA * 8 in
  do b <- writeUInt8 b width 0;
  do b <- writeUInt8 b height 1;
  do b <- writeUInt8 b 0 2;
  do b <- writeUInt8 b 0 3;
  do b <- writeUInt16LE b 1 4;
  do b <- writeUInt16LE b bpp 6;
  do b <- writeUInt32LE b size 8;
  do b <- writeUInt32LE b offset 12;
  Ok b.

Definition createFileHeader (count : Z) : outcome Buffer :=
  let b := alloc FILE_HEADER_SIZE in
  do b <- writeUInt16LE b 0 0;
  do b <- writeUInt16LE b 1 2;
  do b <- writeUInt16LE b count 4;
  Ok b.

(** ** The pixel converter *)

(** One byte access of the converter, kept as a ghost trace. *)
Inductive access : Type :=
| Rd (pos : Z)   (* src.readUInt8(pos) *)
| Wr (pos : Z).  (* dest.writeUInt8(_, pos) *)

(** The two buffers the converter works on, and the accesses made so far. *)
Record mem : Type := mkMem { m_src : Buffer; m_dest : Buffer; m_trace : list access }.

(** [src.readUInt8(pos)] *)
Definition src_readUInt8 (pos : Z) (m : mem) : outcome (Z * mem) :=
  do v <- readUInt8 (m_src m) pos;
  Ok (v, mkMem (m_src m) (m_dest m) (m_trace m ++ [Rd pos])).

(** [dest.writeUInt8(value, pos)] *)
Definition dest_writeUInt8 (value pos : Z) (m : mem) : outcome mem :=
  do d <- writeUInt8 (m_dest m) value pos;
  Ok (mkMem (m_src m) d (m_trace m ++ [Wr pos])).

(** Body of the inner loop. *)
Definition convert_pixel (rowEnd row col : Z) (m : mem) : outcome mem :=
  (* RGBA: Top/Left -> Bottom/Right *)
  let pos := row + col in
  do (r, m) <- src_readUInt8 pos m;
  do (g, m) <- src_readUInt8 (pos + 1) m;
  do (b, m) <- src_readUInt8 (pos + 2) m;
  do (a, m) <- src_readUInt8 (pos + 3) m;
  (* BGRA: Right/Left -> Top/Right *)
  let pos := rowEnd - row + col in
  do m <- dest_writeUInt8 b pos m;
  do m <- dest_writeUInt8 g (pos + 1) m;
  do m <- dest_writeUInt8 r (pos + 2) m;
  do m <- dest_writeUInt8 a (pos + 3) m;
  Ok m.

(** [for (let col = 0; col < cols; col += bpp)], entered at [col]. *)
Fixpoint for_col (fuel : nat) (cols bpp rowEnd row col : Z) (m : mem) : outcome mem :=
  match fuel with
  | O => OutOfFuel
  | S fuel' =>
      if col <? cols then
        do m <- convert_pixel rowEnd row col m;
        for_col fuel' cols bpp rowEnd row (col + bpp) m
      else Ok m
  end.

(** [for (let row = 0; row < rows; row += cols)], entered at [row]; each
    run of the inner loop gets [cfuel]. *)
Fixpoint for_row (fuel cfuel : nat) (cols rows bpp rowEnd row : Z) (m : mem)
  : outcome mem :=
  match fuel with
  | O => OutOfFuel
  | S fuel' =>
      if row <? rows then
        do m <- for_col cfuel cols bpp rowEnd row 0 m;
        for_row fuel' cfuel cols rows bpp rowEnd (row + cols) m
      else Ok m
  end.

(** The converter, returning the final memory: source, destination, trace. *)
Definition convert_run (fuel : nat) (src : Buffer) (width height bpp : Z)
  : outcome mem :=
  let cols := width * bpp in
  let rows := height * cols in
  let rowEnd := rows - cols in
  let dest := alloc (buf_length src) in
  for_row fuel fuel cols rows bpp rowEnd 0 (mkMem src dest []).

Definition convertPNGtoDIB (fuel : nat) (src : Buffer) (width height bpp : Z)
  : outcome Buffer :=
  do m <- convert_run fuel src width height bpp;
  Ok (m_dest m).

(** ** Writing to the stream *)

(** A write stream: the chunks queued by [stream.write], in order. *)
Abbreviation Stream := (list (list Byte.byte)).

(** [stream.write(chunk, 'binary')] *)
Definition stream_write (stream : Stream) (chunk : Buffer) : Stream :=
  stream ++ [chunk].

(** The loop of [writeDirectories], with its running [offset]. *)
Fixpoint writeDirectories_loop (pngs : list PNG) (offset : Z) (stream : Stream)
  : outcome Stream :=
  match pngs with
  | [] => Ok stream
  | png :: rest =>
      do directory <- createDirectory png offset;
      let stream := stream_write stream directory in
      let offset := offset + (buf_length (data png) + BITMAPINFOHEADER_SIZE) in
      writeDirectories_loop rest offset stream
  end.

Definition writeDirectories (pngs : list PNG) (stream : Stream) : outcome Stream :=
  let offset := FILE_HEADER_SIZE + ICO_DIRECTORY_SIZE * Z.of_nat (length pngs) in
  writeDirectories_loop pngs offset stream.

Fixpoint writePNGs (fuel : nat) (pngs : list PNG) (stream : Stream) : outcome Stream :=
  match pngs with
  | [] => Ok stream
  | png :: rest =>
      do header <- createBitmapInfoHeader png BI_RGB;
      let stream := stream_write stream header in
      do dib <- convertPNGtoDIB fuel (data png) (width png) (height png) BPP_ALPHA;
      let stream := stream_write stream dib in
      writePNGs fuel rest stream
  end.

(** The listener of the stream's 'ready' event in [createIconFile]. *)
Definition on_ready (fuel : nat) (pngs : list PNG) (stream : Stream) : outcome Stream :=
  do header <- createFileHeader (Z.of_nat (length pngs));
  let stream := stream_write stream header in
  do stream <- writeDirectories pngs stream;
  do stream <- writePNGs fuel pngs stream;
  Ok stream.

(** ** The generate operation and its effects *)

(** How the promise of an asynchronous operation ends. An exception thrown
    inside an event listener is not caught by the promise: it escapes to the
    event loop and the promise never settles ([Uncaught]). [Unfinished] is
    the model running out of fuel. *)
Inductive settled (A : Type) : Type :=
| Resolved (a : A)
| Rejected (e : error)
| Uncaught (e : error)
| Unfinished.

Arguments Resolved {A} a.
Arguments Rejected {A} e.
Arguments Uncaught {A} e.
Arguments Unfinished {A}.

(** An entry of the image list ([ImageInfo] of ./png). *)
Record ImageInfo : Type := mkImageInfo { size : Z; filePath : string }.

(** The options of [generateICO]; [None] is an absent property. *)
Record Options : Type := mkOptions { name : option string; sizes : option (list Z) }.

(** What the module gets from its collaborators: the size filter of ./png,
    the decoder of pngjs, [path.join], and the faults of the write stream. *)
Record Env : Type := mkEnv {
  filterImagesBySizes : list ImageInfo -> list Z -> list ImageInfo;
  PNG_sync_read : Buffer -> outcome PNG;
  path_join : string -> string -> string;
  (* the stream cannot open this path: its 'error' event, no 'ready' *)
  open_fault : string -> option error;
  (* a queued write fails after this many bytes reached the file *)
  write_fault : option (nat * error);
  (* all writes went through and closing the stream fails *)
  end_fault : option error
}.

(** The files on disk, by path, and what the logger was given. *)
Record World : Type := mkWorld { files : gmap string Buffer; logged : list string }.

(** [logger.log(line)] *)
Definition logger_log (line : string) (w : World) : World :=
  mkWorld (files w) (logged w ++ [line]).

(** [fs.readFileSync(path)] *)
Definition readFileSync (fs : gmap string Buffer) (path : string) : outcome Buffer :=
  match fs !! path with
  | Some content => Ok content
  | None => Throw ENOENT
  end.

(** [fs.unlinkSync(path)]: removes the file, and throws when there is none. *)
Definition unlinkSync (fs : gmap string Buffer) (path : string)
  : outcome (gmap string Buffer) :=
  match fs !! path with
  | Some _ => Ok (delete path fs)
  | None => Throw ENOENT
  end.

(** [targets.map(f)] for a callback that may throw. *)
Fixpoint map_outcome {A B : Type} (f : A -> outcome B) (l : list A) : outcome (list B) :=
  match l with
  | [] => Ok []
  | x :: rest =>
      do y <- f x;
      do ys <- map_outcome f rest;
      Ok (y :: ys)
  end.

Definition readPNGs (env : Env) (fs : gmap string Buffer)
  (images : list ImageInfo) (sizes : list Z) : outcome (list PNG) :=
  let targets := filterImagesBySizes env images sizes in
  map_outcome
    (fun image =>
       do data <- readFileSync fs (filePath image);
       PNG_sync_read env data)
    targets.

Definition createIconFile (env : Env) (fuel : nat) (pngs : list PNG)
  (filePath : string) (fs : gmap string Buffer)
  : gmap string Buffer * settled unit :=
  if (length pngs =? 0)%nat then
    (fs, Rejected NoMatchingPNG)
  else
    (* fs.createWriteStream(filePath) *)
    match open_fault env filePath with
    | Some err => (fs, Rejected err)                  (* on 'error' *)
    | None =>
        let fs := <[filePath := []]> fs in            (* created or truncated *)
        match on_ready fuel pngs [] with              (* on 'ready' *)
        | Throw e => (fs, Uncaught e)               (* what was queued is lost *)
        | OutOfFuel => (fs, Unfinished)
        | Ok stream =>
            let bytes := concat stream in
            match write_fault env with
            | Some (n, err) =>                        (* on 'error' *)
                (<[filePath := take n bytes]> fs, Rejected err)
            | None =>
                match end_fault env with
                | Some err =>                         (* on 'error' *)
                    (<[filePath := bytes]> fs, Rejected err)
                | None =>                             (* on 'finish' *)
                    (<[filePath := bytes]> fs, Resolved tt)
                end
            end
        end
    end.

(** The [catch] block of [generateICO]. *)
Definition on_catch (err : error) (dest : string) (w : World)
  : World * settled string :=
  match unlinkSync (files w) dest with
  | Ok fs => (mkWorld fs (logged w), Rejected err)
  | Throw e => (w, Rejected e)
  | OutOfFuel => (w, Unfinished)
  end.

(** The destination path [generateICO] computes. *)
Definition dest_path (env : Env) (dir : string) (options : Options) : string :=
  let opt_name :=
    match name options with
    | Some n => if String.eqb n "" then DEFAULT_FILE_NAME else n
    | None => DEFAULT_FILE_NAME
    end in
  path_join env dir (opt_name +:+ FILE_EXTENSION).

(** The sizes [generateICO] asks the filter for. *)
Definition opt_sizes (options : Options) : list Z :=
  match sizes options with
  | Some l => if (0 <? length l)%nat then l else REQUIRED_IMAGE_SIZES
  | None => REQUIRED_IMAGE_SIZES
  end.

Definition generateICO (env : Env) (fuel : nat) (images : list ImageInfo)
  (dir : string) (options : Options) (w : World) : World * settled string :=
  let w := logger_log "ICO:" w in
  let dest := dest_path env dir options in
  match readPNGs env (files w) images (opt_sizes options) with
  | Throw err => on_catch err dest w
  | OutOfFuel => (w, Unfinished)
  | Ok pngs =>
      match createIconFile env fuel pngs dest (files w) with
      | (fs, Rejected err) => on_catch err dest (mkWorld fs (logged w))
      | (fs, Uncaught e) => (mkWorld fs (logged w), Uncaught e)
      | (fs, Unfinished) => (mkWorld fs (logged w), Unfinished)
      | (fs, Resolved _) =>
          let w := logger_log ("  Create: " +:+ dest) (mkWorld fs (logged w)) in
          (w, Resolved dest)
      end
  end.

(** * Notions used to state the properties *)

(** The [n] low bytes of [v], least significant first. *)
Fixpoint le_bytes (n : nat) (v : Z) : Buffer :=
  match n with
  | O => []
  | S n' => byte_of v :: le_bytes n' (Z.shiftr v 8)
  end.

(** The [len] bytes of [b] that start at byte position [pos]. *)
Definition slice (b : Buffer) (pos len : Z) : Buffer :=
  take (Z.to_nat len) (drop (Z.to_nat pos) b).

(** Byte offset of the pixel at row [r] (from the top) and column [c] of a
    top-down image. *)
Definition src_pos (width r c : Z) : Z := r * (width * 4) + c * 4.

(** Byte offset of the same pixel in the bottom-up image. *)
Definition dst_pos (width height r c : Z) : Z :=
  (height - 1 - r) * (width * 4) + c * 4.

(** The accesses one pixel takes: four reads, then four writes. *)
Definition pixel_trace (width height r c : Z) : list access :=
  let p := src_pos width r c in
  let q := dst_pos width height r c in
  [Rd p; Rd (p + 1); Rd (p + 2); Rd (p + 3);
   Wr q; Wr (q + 1); Wr (q + 2); Wr (q + 3)].

(** The accesses of a whole image: rows from the top, columns from the
    left, every pixel once. *)
Definition image_trace (width height : Z) : list access :=
  seqZ 0 height ≫= λ r, seqZ 0 width ≫= pixel_trace width height r.

(** The byte position an access touches. *)
Definition access_pos (a : access) : Z :=
  match a with Rd pos => pos | Wr pos => pos end.

Definition byte_at (b : Buffer) (pos : Z) : byte :=
  default zero_byte (b !! Z.to_nat pos).

(** The inverse transform, written from its description: row [r] of the
    top-down image is row [height - 1 - r] of the bottom-up one, and a
    pixel stored as (B, G, R, A) is given back as (R, G, B, A). *)
Definition DIBtoPNG (dib : Buffer) (width height : Z) : Buffer :=
  seqZ 0 height ≫= λ r, seqZ 0 width ≫= λ c,
    let q := dst_pos width height r c in
    [byte_at dib (q + 2); byte_at dib (q + 1); byte_at dib q; byte_at dib (q + 3)].

(** The state of the converter when every pixel before row [r], column
    [c] (rows from the top, columns from the left) has been converted and
    no other: the source is as it was, the destination has kept its
    length, the accesses made are those of the converted pixels in order,
    and each converted pixel is in place with its channels swapped. *)
Definition conv_inv (src : Buffer) (w h r c : Z) (m : mem) : Prop :=
  m_src m = src /\
  length (m_dest m) = length src /\
  m_trace m =
    (seqZ 0 r ≫= λ r', seqZ 0 w ≫= pixel_trace w h r') ++
    (seqZ 0 c ≫= pixel_trace w h r) /\
  forall r' c', 0 <= r' -> 0 <= c' < w -> r' < r \/ (r' = r /\ c' < c) ->
    let p := src_pos w r' c' in
    let q := dst_pos w h r' c' in
    m_dest m !! Z.to_nat q = src !! Z.to_nat (p + 2) /\
    m_dest m !! Z.to_nat (q + 1) = src !! Z.to_nat (p + 1) /\
    m_dest m !! Z.to_nat (q + 2) = src !! Z.to_nat p /\
    m_dest m !! Z.to_nat (q + 3) = src !! Z.to_nat (p + 3).

(** The sixteen bytes of a directory entry. *)
Definition directory_layout (png : PNG) (offset : Z) : Buffer :=
  le_bytes 1 (if 256 <=? width png then 0 else width png) ++
  le_bytes 1 (if 256 <=? height png then 0 else height png) ++
  le_bytes 1 0 ++ le_bytes 1 0 ++ le_bytes 2 1 ++ le_bytes 2 32 ++
  le_bytes 4 (buf_length (data png) + 40) ++ le_bytes 4 offset.

(** The forty bytes of a bitmap info header. *)
Definition bitmap_info_layout (png : PNG) (compression : Z) : Buffer :=
  le_bytes 4 40 ++ le_bytes 4 (width png) ++ le_bytes 4 (height png * 2) ++
  le_bytes 2 1 ++ le_bytes 2 32 ++ le_bytes 4 compression ++
  le_bytes 4 (buf_length (data png)) ++
  le_bytes 4 0 ++ le_bytes 4 0 ++ le_bytes 4 0 ++ le_bytes 4 0.

(** The six bytes of the file header. *)
Definition file_header_layout (count : Z) : Buffer :=
  le_bytes 2 0 ++ le_bytes 2 1 ++ le_bytes 2 count.

(** Bytes the images of [pngs] take after the directory: a bitmap info
    header and the pixel data for each. *)
Fixpoint payload_size (pngs : list PNG) : Z :=
  match pngs with
  | [] => 0
  | png :: rest => buf_length (data png) + BITMAPINFOHEADER_SIZE + payload_size rest
  end.

(** Where the block of image [i] begins: after the file header, the whole
    directory, and the blocks of the images before it. *)
Definition block_start (pngs : list PNG) (i : nat) : Z :=
  FILE_HEADER_SIZE + ICO_DIRECTORY_SIZE * Z.of_nat (length pngs)
  + payload_size (take i pngs).

(** The offset field of directory entry [i], read from the bytes of a
    container: the last four bytes of the entry. *)
Definition offset_field (out : Buffer) (i : nat) : outcome Z :=
  readUInt32LE out (FILE_HEADER_SIZE + ICO_DIRECTORY_SIZE * Z.of_nat i + 12).

(** The chunks [writeDirectories] queues, from running offset [offset]. *)
Fixpoint directory_chunks (pngs : list PNG) (offset : Z) : list Buffer :=
  match pngs with
  | [] => []
  | png :: rest =>
      directory_layout png offset
      :: directory_chunks rest (offset + (buf_length (data png) + BITMAPINFOHEADER_SIZE))
  end.

(** The chunks [writePNGs] queues, given the converted pixel data. *)
Fixpoint block_chunks (pngs : list PNG) (dibs : list Buffer) : list Buffer :=
  match pngs, dibs with
  | png :: rest, dib :: dibs' =>
      bitmap_info_layout png BI_RGB :: dib :: block_chunks rest dibs'
  | _, _ => []
  end.

(** Images every field of the container has room for: at most 65535 of
    them, dimensions that are not negative and fit a signed 32-bit field
    (the height doubled), pixel data of width x height x 4 bytes, and a
    container of less than 4 GiB. *)
Definition fits_container (pngs : list PNG) : Prop :=
  Z.of_nat (length pngs) <= 65535 /\
  block_start pngs (length pngs) <= 4294967295 /\
  Forall (fun png =>
            0 <= width png <= 2147483647 /\
            0 <= height png /\ height png * 2 <= 2147483647 /\
            buf_length (data png) = width png * height png * 4) pngs.

(** Fuel that lets the converter finish on each of the images. *)
Definition enough_fuel (fuel : nat) (pngs : list PNG) : Prop :=
  Forall (fun png => (Z.to_nat (width png) < fuel)%nat /\
                     (Z.to_nat (height png) < fuel)%nat) pngs.

(** [dibs] are the pixel data of [pngs], converted. *)
Definition converted (fuel : nat) (pngs : list PNG) (dibs : list Buffer) : Prop :=
  Forall2 (fun png dib =>
             convertPNGtoDIB fuel (data png) (width png) (height png) BPP_ALPHA
             = Ok dib) pngs dibs.

(** The stream opens [path], takes every write and closes. *)
Definition no_faults (env : Env) (path : string) : Prop :=
  open_fault env path = None /\ write_fault env = None /\ end_fault env = None.

(** ** A small world for the examples *)

(** A stand-in for the decoder: a width byte, a height byte, the pixels. *)
Definition sample_decoder (content : Buffer) : outcome PNG :=
  match content with
  | w :: h :: pixels => Ok (mkPNG (byte_val w) (byte_val h) pixels)
  | _ => Throw (External "not an image")
  end.

(** The filter keeps the images of a size that is asked for; nothing of the
    stream fails. *)
Definition sample_env : Env :=
  mkEnv
    (fun images sizes =>
       List.filter (fun image => existsb (Z.eqb (size image)) sizes) images)
    sample_decoder
    (fun dir file => dir +:+ "/" +:+ file)
    (fun _ => None) None None.

(** Two image files: one red pixel, and a column of two pixels. *)
Definition sample_world : World :=
  mkWorld
    (<["in/1.png" := map byte_of [1; 1; 255; 0; 0; 255]]>
       (<["in/2.png" := map byte_of [1; 2; 1; 2; 3; 4; 5; 6; 7; 8]]> ∅))
    [].

Definition sample_images : list ImageInfo :=
  [mkImageInfo 1 "in/1.png"; mkImageInfo 2 "in/2.png"].

Definition sample_options : Options := mkOptions None (Some [1; 2]).


(** ** Notions for the further properties *)

(** A piece of code that returns or throws a RangeError. *)
Definition returns_or_range_error {A : Type} (x : outcome A) : Prop :=
  (exists a, x = Ok a) \/ x = Throw ERR_OUT_OF_RANGE.

(** The values of a directory entry have room in its fields. *)
Definition directory_fits (png : PNG) (offset : Z) : Prop :=
  0 <= width png /\ 0 <= height png /\
  buf_length (data png) + 40 <= 4294967295 /\
  0 <= offset <= 4294967295.

(** The values of a bitmap info header have room in its fields. *)
Definition bitmap_info_fits (png : PNG) : Prop :=
  -2147483648 <= width png <= 2147483647 /\
  -2147483648 <= height png * 2 <= 2147483647 /\
  buf_length (data png) <= 4294967295.

(** The size field of directory entry [i], read from the bytes of a
    container. *)
Definition size_field (out : Buffer) (i : nat) : outcome Z :=
  readUInt32LE out (FILE_HEADER_SIZE + ICO_DIRECTORY_SIZE * Z.of_nat i + 8).

(** A memory of the converter at work on [src]: the source is as given,
    the destination as long as it, and every access made so far was inside
    the buffers. *)
Definition run_inv (src : Buffer) (m : mem) : Prop :=
  m_src m = src /\
  length (m_dest m) = length src /\
  Forall (fun a => 0 <= access_pos a < buf_length src) (m_trace m).

(** The four bytes of [b] from position [p], in order, and with the first
    and third exchanged. *)
Definition pixel_at (b : Buffer) (p : Z) : Buffer :=
  [byte_at b p; byte_at b (p + 1); byte_at b (p + 2); byte_at b (p + 3)].

Definition swapped_pixel_at (b : Buffer) (p : Z) : Buffer :=
  [byte_at b (p + 2); byte_at b (p + 1); byte_at b p; byte_at b (p + 3)].
Example createFileHeader_3 :
  createFileHeader 3 = Ok (map byte_of [0; 0; 1; 0; 3; 0]).
Proof. reflexivity. Qed.

Example convert_2x2 :
  convertPNGtoDIB 5 (map byte_of [1;2;3;4; 5;6;7;8; 9;10;11;12; 13;14;15;16]) 2 2 4
  = Ok (map byte_of [11;10;9;12; 15;14;13;16; 3;2;1;4; 7;6;5;8]).
Proof. reflexivity. Qed.

Example sample_readPNGs :
  readPNGs sample_env (files sample_world) sample_images (opt_sizes sample_options)
  = Ok [mkPNG 1 1 (map byte_of [255; 0; 0; 255]);
        mkPNG 1 2 (map byte_of [1; 2; 3; 4; 5; 6; 7; 8])].
Proof. vm_compute. reflexivity. Qed.

Example sample_generateICO :
  exists w',
    generateICO sample_env 3 sample_images "out" sample_options sample_world
    = (w', Resolved "out/app.ico") /\
    files w' !! "out/app.ico" =
      Some (map byte_of
              [0;0; 1;0; 2;0;
               1;1;0;0; 1;0; 32;0; 44;0;0;0; 38;0;0;0;
               1;2;0;0; 1;0; 32;0; 48;0;0;0; 82;0;0;0;
               40;0;0;0; 1;0;0;0; 2;0;0;0; 1;0; 32;0; 0;0;0;0; 4;0;0;0;
               0;0;0;0; 0;0;0;0; 0;0;0;0; 0;0;0;0;
               0;0;255;255;
               40;0;0;0; 1;0;0;0; 4;0;0;0; 1;0; 32;0; 0;0;0;0; 8;0;0;0;
               0;0;0;0; 0;0;0;0; 0;0;0;0; 0;0;0;0;
               7;6;5;8; 3;2;1;4]) /\
    logged w' = ["ICO:"; "  Create: out/app.ico"]%string.
Proof.
  eexists. split; [vm_compute; reflexivity |].
  split; vm_compute; reflexivity.
Qed.

(** * Properties *)

(** ** Outcomes *)

Lemma bind_Ok {A B : Type} (x : outcome A) (f : A -> outcome B) (y : B) :
  bind x f = Ok y <-> exists a, x = Ok a /\ f a = Ok y.
Proof.
  destruct x as [a | e |]; simpl; split.
  - intros H. exists a. auto.
  - intros (a' & Ha & Hf). inversion Ha. subst. exact Hf.
  - discriminate.
  - intros (a' & Ha & _). discriminate.
  - discriminate.
  - intros (a' & Ha & _). discriminate.
Qed.

(** Splits every hypothesis [bind x f = Ok y] into its two steps. *)
Ltac bind_inv :=
  repeat match goal with
    | H : bind _ _ = Ok _ |- _ =>
        let a := fresh "b" in
        let Ha := fresh "Hw" in
        apply bind_Ok in H; destruct H as (a & Ha & H)
    | H : Ok _ = Ok _ |- _ => inversion H; subst; clear H
    end.

(** ** Bytes *)

Lemma byte_of_val (b : byte) : byte_of (byte_val b) = b.
Proof. destruct b; reflexivity. Qed.

Lemma byte_val_range (b : byte) : 0 <= byte_val b <= 255.
Proof.
  unfold byte_val. pose proof (Byte.to_N_bounded b) as H.
  split; [apply N2Z.is_nonneg |].
  change 255 with (Z.of_N 255). apply N2Z.inj_le. exact H.
Qed.

Lemma byte_val_of (v : Z) : byte_val (byte_of v) = v mod 256.
Proof.
  unfold byte_of, byte_val.
  change 255 with (Z.ones 8). rewrite Z.land_ones by lia.
  change (2 ^ 8) with 256.
  pose proof (Z.mod_pos_bound v 256 eq_refl) as [Hlo Hhi].
  destruct (Byte.of_N (Z.to_N (v mod 256))) as [b |] eqn:E.
  - apply Byte.to_of_N in E. rewrite E. apply Z2N.id. exact Hlo.
  - apply Byte.of_N_None_iff in E. lia.
Qed.

Lemma byte_of_small (v : Z) : 0 <= v <= 255 -> byte_val (byte_of v) = v.
Proof. intros H. rewrite byte_val_of. apply Z.mod_small. lia. Qed.

(** ** Little-endian stores and loads *)

Lemma length_store_le (n : nat) : forall (b : Buffer) (v : Z) (off : nat),
  length (store_le n b v off) = length b.
Proof.
  induction n as [| n IH]; intros b v off; simpl; [reflexivity |].
  rewrite IH. apply length_insert.
Qed.

Lemma store_le_lookup_other (n : nat) : forall (b : Buffer) (v : Z) (off i : nat),
  (i < off \/ off + n <= i)%nat -> store_le n b v off !! i = b !! i.
Proof.
  induction n as [| n IH]; intros b v off i Hi; simpl; [reflexivity |].
  rewrite IH by lia. apply list_lookup_insert_ne. lia.
Qed.

Lemma load_le_ext (n : nat) : forall (b b' : Buffer) (off : nat),
  (forall i, (off <= i < off + n)%nat -> b !! i = b' !! i) ->
  load_le n b off = load_le n b' off.
Proof.
  induction n as [| n IH]; intros b b' off H; simpl; [reflexivity |].
  rewrite (H off) by lia. rewrite (IH b b' (S off)); [reflexivity |].
  intros i Hi. apply H. lia.
Qed.

Lemma load_store_other (n m : nat) (b : Buffer) (v : Z) (off off' : nat) :
  (off' + n <= off \/ off + m <= off')%nat ->
  load_le n (store_le m b v off) off' = load_le n b off'.
Proof.
  intros H. apply load_le_ext. intros i Hi.
  apply store_le_lookup_other. lia.
Qed.

Lemma load_store_same (n : nat) : forall (b : Buffer) (v : Z) (off : nat),
  (off + n <= length b)%nat ->
  load_le n (store_le n b v off) off = v mod 2 ^ (8 * Z.of_nat n).
Proof.
  induction n as [| n IH]; intros b v off Hlen.
  - simpl. symmetry. apply Z.mod_1_r.
  - cbn [store_le load_le].
    rewrite store_le_lookup_other by lia.
    rewrite list_lookup_insert_eq by lia.
    rewrite IH by (rewrite length_insert; lia).
    rewrite byte_val_of, Z.shiftr_div_pow2 by lia.
    replace (8 * Z.of_nat (S n)) with (8 + 8 * Z.of_nat n) by lia.
    rewrite Z.pow_add_r by lia.
    change (2 ^ 8) with 256.
    symmetry. apply Z.rem_mul_r; [lia |].
    apply Z.pow_pos_nonneg; lia.
Qed.

Lemma load_le_range (n : nat) : forall (b : Buffer) (off : nat),
  0 <= load_le n b off < 2 ^ (8 * Z.of_nat n).
Proof.
  induction n as [| n IH]; intros b off.
  - simpl. lia.
  - cbn [load_le].
    replace (8 * Z.of_nat (S n)) with (8 + 8 * Z.of_nat n) by lia.
    rewrite Z.pow_add_r by lia. change (2 ^ 8) with 256.
    assert (0 < 2 ^ (8 * Z.of_nat n)) by (apply Z.pow_pos_nonneg; lia).
    destruct (b !! off) as [x |]; [| nia].
    pose proof (byte_val_range x). specialize (IH b (S off)). nia.
Qed.

(** ** The accessors *)

Lemma in_bounds_true (b : Buffer) (off n : Z) :
  in_bounds b off n = true <-> 0 <= off /\ off + n <= Z.of_nat (length b).
Proof. unfold in_bounds, buf_length. rewrite andb_true_iff. lia. Qed.

Lemma write_int_Ok (n : nat) (lo hi : Z) (b b' : Buffer) (v off : Z) :
  write_int n lo hi b v off = Ok b' <->
  lo <= v <= hi /\ 0 <= off /\ off + Z.of_nat n <= Z.of_nat (length b) /\
  b' = store_le n b v (Z.to_nat off).
Proof.
  unfold write_int.
  destruct ((lo <=? v) && (v <=? hi) && in_bounds b off (Z.of_nat n)) eqn:E.
  - apply andb_true_iff in E as [E1 E2]. apply andb_true_iff in E1 as [E0 E1].
    apply in_bounds_true in E2.
    split.
    + intros H. inversion H. subst. repeat split; lia.
    + intros (_ & _ & _ & ->). reflexivity.
  - split; [discriminate |].
    intros (Hv & Ho & Hl & _). exfalso.
    assert (in_bounds b off (Z.of_nat n) = true) as Hb by (apply in_bounds_true; lia).
    rewrite Hb in E.
    assert ((lo <=? v) = true) as H1 by lia.
    assert ((v <=? hi) = true) as H2 by lia.
    rewrite H1, H2 in E. discriminate.
Qed.

Lemma read_uint_Ok (n : nat) (b : Buffer) (off v : Z) :
  read_uint n b off = Ok v <->
  0 <= off /\ off + Z.of_nat n <= Z.of_nat (length b) /\
  v = load_le n b (Z.to_nat off).
Proof.
  unfold read_uint. destruct (in_bounds b off (Z.of_nat n)) eqn:E.
  - apply in_bounds_true in E. split.
    + intros H. inversion H. subst. repeat split; lia.
    + intros (_ & _ & ->). reflexivity.
  - split; [discriminate |]. intros (H1 & H2 & _).
    assert (in_bounds b off (Z.of_nat n) = true) as Hb by (apply in_bounds_true; lia).
    congruence.
Qed.
(** ** The pixel converter *)

Lemma readUInt8_lookup (b : Buffer) (pos : Z) (x : byte) :
  0 <= pos -> b !! Z.to_nat pos = Some x -> readUInt8 b pos = Ok (byte_val x).
Proof.
  intros Hpos Hx. unfold readUInt8.
  apply read_uint_Ok. apply lookup_lt_Some in Hx as Hlt.
  repeat split; [lia | lia |].
  cbn [load_le]. rewrite Hx. lia.
Qed.

Lemma writeUInt8_byte (b : Buffer) (pos : Z) (x : byte) :
  0 <= pos < Z.of_nat (length b) ->
  writeUInt8 b (byte_val x) pos = Ok (<[Z.to_nat pos := x]> b).
Proof.
  intros Hpos. unfold writeUInt8. apply write_int_Ok.
  pose proof (byte_val_range x).
  repeat split; try lia.
  cbn [store_le]. rewrite byte_of_val. reflexivity.
Qed.

Lemma lookup_in_range (b : Buffer) (pos : Z) :
  0 <= pos < Z.of_nat (length b) -> exists x, b !! Z.to_nat pos = Some x.
Proof. intros H. apply lookup_lt_is_Some. lia. Qed.

(** One run of the loop body, when the pixel it reads and the pixel it
    writes are inside the buffers. *)
Lemma convert_pixel_Ok (rowEnd row col : Z) (m : mem) :
  let p := row + col in
  let q := rowEnd - row + col in
  0 <= p -> p + 3 < Z.of_nat (length (m_src m)) ->
  0 <= q -> q + 3 < Z.of_nat (length (m_dest m)) ->
  exists r g b a,
    m_src m !! Z.to_nat p = Some r /\
    m_src m !! Z.to_nat (p + 1) = Some g /\
    m_src m !! Z.to_nat (p + 2) = Some b /\
    m_src m !! Z.to_nat (p + 3) = Some a /\
    convert_pixel rowEnd row col m =
      Ok (mkMem (m_src m)
            (<[Z.to_nat (q + 3) := a]>
               (<[Z.to_nat (q + 2) := r]>
                  (<[Z.to_nat (q + 1) := g]> (<[Z.to_nat q := b]> (m_dest m)))))
            (m_trace m ++ [Rd p; Rd (p + 1); Rd (p + 2); Rd (p + 3);
                           Wr q; Wr (q + 1); Wr (q + 2); Wr (q + 3)])).
Proof.
  intros p q Hp0 Hp3 Hq0 Hq3.
  destruct (lookup_in_range (m_src m) p) as [r Hr]; [lia |].
  destruct (lookup_in_range (m_src m) (p + 1)) as [g Hg]; [lia |].
  destruct (lookup_in_range (m_src m) (p + 2)) as [b Hb]; [lia |].
  destruct (lookup_in_range (m_src m) (p + 3)) as [a Ha]; [lia |].
  exists r, g, b, a. repeat split; try assumption.
  unfold convert_pixel, src_readUInt8, dest_writeUInt8. fold p. fold q.
  cbn [m_src m_dest m_trace].
  rewrite (readUInt8_lookup _ p r) by (assumption || lia).
  cbn [bind m_src m_dest m_trace].
  rewrite (readUInt8_lookup _ (p + 1) g) by (assumption || lia).
  cbn [bind m_src m_dest m_trace].
  rewrite (readUInt8_lookup _ (p + 2) b) by (assumption || lia).
  cbn [bind m_src m_dest m_trace].
  rewrite (readUInt8_lookup _ (p + 3) a) by (assumption || lia).
  cbn [bind m_src m_dest m_trace].
  rewrite (writeUInt8_byte _ q b) by lia. cbn [bind m_src m_dest m_trace].
  rewrite (writeUInt8_byte _ (q + 1) g) by (rewrite !length_insert; lia).
  cbn [bind m_src m_dest m_trace].
  rewrite (writeUInt8_byte _ (q + 2) r) by (rewrite !length_insert; lia).
  cbn [bind m_src m_dest m_trace].
  rewrite (writeUInt8_byte _ (q + 3) a) by (rewrite !length_insert; lia).
  cbn [bind m_src m_dest m_trace].
  rewrite <- !app_assoc. reflexivity.
Qed.

Lemma pixel_in_image (w h r c : Z) :
  0 <= r < h -> 0 <= c < w ->
  0 <= r * (w * 4) + c * 4 /\ r * (w * 4) + c * 4 + 3 < w * h * 4.
Proof. intros Hr Hc. split; nia. Qed.

Lemma insert4_lookup_other (b : Buffer) (q i : Z) (x0 x1 x2 x3 : byte) :
  0 <= q -> 0 <= i -> i < q \/ q + 3 < i ->
  <[Z.to_nat (q + 3) := x3]>
    (<[Z.to_nat (q + 2) := x2]>
       (<[Z.to_nat (q + 1) := x1]> (<[Z.to_nat q := x0]> b))) !! Z.to_nat i
  = b !! Z.to_nat i.
Proof.
  intros Hq Hi Hne. rewrite !list_lookup_insert_ne by lia. reflexivity.
Qed.

Lemma insert4_lookup (b : Buffer) (q : Z) (x0 x1 x2 x3 : byte) :
  0 <= q -> q + 3 < Z.of_nat (length b) ->
  let b' := <[Z.to_nat (q + 3) := x3]>
              (<[Z.to_nat (q + 2) := x2]>
                 (<[Z.to_nat (q + 1) := x1]> (<[Z.to_nat q := x0]> b))) in
  b' !! Z.to_nat q = Some x0 /\ b' !! Z.to_nat (q + 1) = Some x1 /\
  b' !! Z.to_nat (q + 2) = Some x2 /\ b' !! Z.to_nat (q + 3) = Some x3.
Proof.
  intros Hq Hlen b'. subst b'.
  repeat split;
    repeat (rewrite list_lookup_insert_ne by lia);
    rewrite list_lookup_insert_eq by (rewrite ?length_insert; lia);
    reflexivity.
Qed.

Lemma bind_all_nil {A B : Type} (f : A -> list B) (l : list A) :
  (forall x, f x = []) -> l ≫= f = [].
Proof.
  intros Hf. induction l as [| x l IH]; [reflexivity |].
  rewrite bind_cons, Hf, IH. reflexivity.
Qed.

Lemma bind_seqZ_succ {B : Type} (f : Z -> list B) (n : Z) :
  0 <= n -> seqZ 0 (n + 1) ≫= f = (seqZ 0 n ≫= f) ++ f n.
Proof.
  intros Hn. rewrite seqZ_app by lia. rewrite bind_app.
  f_equal. rewrite Z.add_0_l.
  change (seqZ n 1) with [0 + n]. rewrite Z.add_0_l. apply bind_singleton.
Qed.

Section convert.
Variables (src : Buffer) (w h : Z).
Hypothesis Hw : 0 <= w.
Hypothesis Hh : 0 <= h.
Hypothesis Hlen : buf_length src = w * h * 4.

Lemma conv_inv_pixel (r c : Z) (m : mem) :
  0 <= r < h -> 0 <= c < w -> conv_inv src w h r c m ->
  exists m',
    convert_pixel (h * (w * 4) - w * 4) (r * (w * 4)) (c * 4) m = Ok m' /\
    conv_inv src w h r (c + 1) m'.
Proof.
  intros Hr Hc (Hsrc & Hdlen & Htr & Hpix).
  unfold buf_length in Hlen.
  pose proof (pixel_in_image w h r c Hr Hc) as [Hp0 Hp3].
  pose proof (pixel_in_image w h (h - 1 - r) c ltac:(lia) Hc) as [Hq0 Hq3].
  replace ((h - 1 - r) * (w * 4) + c * 4)
    with (h * (w * 4) - w * 4 - r * (w * 4) + c * 4) in Hq0, Hq3 by ring.
  destruct (convert_pixel_Ok (h * (w * 4) - w * 4) (r * (w * 4)) (c * 4) m)
    as (x0 & x1 & x2 & x3 & H0 & H1 & H2 & H3 & Hrun);
    try (rewrite ?Hsrc, ?Hdlen; lia).
  eexists. split; [exact Hrun |].
  replace (h * (w * 4) - w * 4 - r * (w * 4) + c * 4)
    with (dst_pos w h r c) in * by (unfold dst_pos; ring).
  change (r * (w * 4) + c * 4) with (src_pos w r c) in *.
  rewrite Hsrc in *.
  split; [reflexivity |]. split; [cbn [m_dest]; rewrite !length_insert; exact Hdlen |].
  split.
  - cbn [m_trace]. rewrite Htr, bind_seqZ_succ by lia.
    rewrite <- app_assoc. reflexivity.
  - cbn [m_dest]. intros r' c' Hr' Hc' Hdone. cbn zeta.
    destruct (decide (r' = r /\ c' = c)) as [[-> ->] | Hne].
    + destruct (insert4_lookup (m_dest m) (dst_pos w h r c) x2 x1 x0 x3)
        as (E0 & E1 & E2 & E3); [lia | lia |].
      rewrite E0, E1, E2, E3, H0, H1, H2, H3. auto.
    + assert (r' < r \/ (r' = r /\ c' < c)) as Hold by lia.
      specialize (Hpix r' c' Hr' Hc' Hold). cbn zeta in Hpix.
      set (q := dst_pos w h r' c') in *.
      assert (q + 3 < dst_pos w h r c \/ dst_pos w h r c + 3 < q) as Hfar.
      { subst q. unfold dst_pos. destruct Hold as [Hlt | [-> Hlt]]; [right | left; lia].
        assert (r' * w + w <= r * w) by nia. lia. }
      assert (0 <= q) as Hq.
      { subst q. unfold dst_pos. nia. }
      rewrite !insert4_lookup_other by lia.
      exact Hpix.
Qed.

Lemma conv_inv_next_row (r : Z) (m : mem) :
  0 <= r -> conv_inv src w h r w m -> conv_inv src w h (r + 1) 0 m.
Proof.
  intros Hr (Hsrc & Hdlen & Htr & Hpix).
  split; [assumption |]. split; [assumption |]. split.
  - rewrite Htr, bind_seqZ_succ by lia. symmetry. apply app_nil_r.
  - intros r' c' Hr' Hc' Hdone. apply Hpix; lia.
Qed.

(** The inner loop, entered at column [c] of row [r], converts the rest
    of the row. *)
Lemma for_col_Ok (r : Z) (n : nat) : forall (c : Z) (fuel : nat) (m : mem),
  0 <= r < h -> 0 <= c -> Z.of_nat n = w - c -> (n < fuel)%nat ->
  conv_inv src w h r c m ->
  exists m',
    for_col fuel (w * 4) 4 (h * (w * 4) - w * 4) (r * (w * 4)) (c * 4) m = Ok m' /\
    conv_inv src w h r w m'.
Proof.
  induction n as [| n IH]; intros c fuel m Hr Hc Hn Hfuel Hinv;
    (destruct fuel as [| fuel]; [lia |]); cbn [for_col].
  - assert (c = w) as -> by lia.
    rewrite Z.ltb_irrefl. exists m. auto.
  - assert ((c * 4 <? w * 4) = true) as -> by lia.
    destruct (conv_inv_pixel r c m) as (m1 & Hrun & Hinv1); [lia | lia | assumption |].
    rewrite Hrun. cbn [bind].
    replace (c * 4 + 4) with ((c + 1) * 4) by ring.
    apply IH; [assumption | lia | lia | lia | assumption].
Qed.

(** The outer loop, entered at row [r], converts the rest of the image. *)
Lemma for_row_Ok (cfuel : nat) (n : nat) : forall (r : Z) (fuel : nat) (m : mem),
  0 < w -> (Z.to_nat w < cfuel)%nat ->
  0 <= r -> Z.of_nat n = h - r -> (n < fuel)%nat ->
  conv_inv src w h r 0 m ->
  exists m',
    for_row fuel cfuel (w * 4) (h * (w * 4)) 4 (h * (w * 4) - w * 4) (r * (w * 4)) m
    = Ok m' /\
    conv_inv src w h h 0 m'.
Proof.
  induction n as [| n IH]; intros r fuel m Hpos Hcf Hr Hn Hfuel Hinv;
    (destruct fuel as [| fuel]; [lia |]); cbn [for_row].
  - assert (r = h) as -> by lia.
    rewrite Z.ltb_irrefl. exists m. auto.
  - assert ((r * (w * 4) <? h * (w * 4)) = true) as -> by nia.
    destruct (for_col_Ok r (Z.to_nat w) 0 cfuel m) as (m1 & Hrun & Hinv1);
      [lia | lia | lia | lia | assumption |].
    change (0 * 4) with 0 in Hrun. rewrite Hrun. cbn [bind].
    replace (r * (w * 4) + w * 4) with ((r + 1) * (w * 4)) by ring.
    apply IH; [assumption | assumption | lia | lia | lia |].
    apply conv_inv_next_row; [lia | assumption].
Qed.

(** The converter returns, having converted every pixel. *)
Lemma convert_run_Ok (fuel : nat) :
  (Z.to_nat w < fuel)%nat -> (Z.to_nat h < fuel)%nat ->
  exists m,
    convert_run fuel src w h 4 = Ok m /\ conv_inv src w h h 0 m.
Proof.
  intros Hfw Hfh. unfold convert_run.
  set (m0 := mkMem src (alloc (buf_length src)) []).
  assert (length (m_dest m0) = length src) as Hl0.
  { cbn [m0 m_dest]. unfold alloc, buf_length.
    rewrite length_replicate. apply Nat2Z.id. }
  destruct (decide (w = 0)) as [-> | Hne].
  - destruct fuel as [| fuel]; [lia |]. cbn [for_row].
    rewrite Z.mul_0_l, Z.mul_0_r, Z.ltb_irrefl.
    exists m0. split; [reflexivity |].
    split; [reflexivity |]. split; [assumption |]. split.
    + cbn [m0 m_trace]. rewrite bind_all_nil; [reflexivity |].
      intros r. reflexivity.
    + intros; lia.
  - destruct (for_row_Ok fuel (Z.to_nat h) 0 fuel m0) as (m & Hrun & Hinv);
      [lia | lia | lia | lia | lia | |].
    + split; [reflexivity |]. split; [assumption |]. split; [reflexivity |].
      intros; lia.
    + change (0 * (w * 4)) with 0 in Hrun. exists m. auto.
Qed.
End convert.

Lemma conv_inv_trace (src : Buffer) (w h : Z) (m : mem) :
  conv_inv src w h h 0 m -> m_trace m = image_trace w h.
Proof.
  intros (_ & _ & Htr & _). rewrite Htr. unfold image_trace. apply app_nil_r.
Qed.

Lemma elem_of_pixel_trace (w h r c : Z) (a : access) :
  a ∈ pixel_trace w h r c ->
  exists k, 0 <= k <= 3 /\
    (a = Rd (src_pos w r c + k) \/ a = Wr (dst_pos w h r c + k)).
Proof.
  unfold pixel_trace. cbn zeta.
  rewrite !elem_of_cons, elem_of_nil.
  intros [-> | [-> | [-> | [-> | [-> | [-> | [-> | [-> | []]]]]]]]].
  - exists 0. rewrite !Z.add_0_r. split; [lia | auto].
  - exists 1. split; [lia | auto].
  - exists 2. split; [lia | auto].
  - exists 3. split; [lia | auto].
  - exists 0. rewrite !Z.add_0_r. split; [lia | auto].
  - exists 1. split; [lia | auto].
  - exists 2. split; [lia | auto].
  - exists 3. split; [lia | auto].
Qed.

Lemma pixel_index_inj (w a b c c' k k' : Z) :
  0 <= c < w -> 0 <= c' < w -> 0 <= k <= 3 -> 0 <= k' <= 3 ->
  a * (w * 4) + c * 4 + k = b * (w * 4) + c' * 4 + k' ->
  a = b /\ c = c' /\ k = k'.
Proof.
  intros Hc Hc' Hk Hk' E.
  assert (a = b) as -> by nia.
  lia.
Qed.

Lemma pixel_trace_inj (w h r r' c c' : Z) (a : access) :
  0 <= c < w -> 0 <= c' < w ->
  a ∈ pixel_trace w h r c -> a ∈ pixel_trace w h r' c' -> r = r' /\ c = c'.
Proof.
  intros Hc Hc' (k & Hk & Ha)%elem_of_pixel_trace (k' & Hk' & Ha')%elem_of_pixel_trace.
  unfold src_pos, dst_pos in *.
  destruct Ha as [-> | ->], Ha' as [E | E]; try discriminate; injection E as E.
  - apply pixel_index_inj in E; [lia | lia | lia | lia | lia].
  - apply pixel_index_inj in E; [lia | lia | lia | lia | lia].
Qed.

Lemma NoDup_pixel_trace (w h r c : Z) : NoDup (pixel_trace w h r c).
Proof.
  unfold pixel_trace. cbn zeta.
  repeat (apply NoDup_cons; split;
    [rewrite ?elem_of_cons, elem_of_nil;
     intros H; repeat (destruct H as [H | H]); try discriminate; try (injection H; lia); try contradiction |]).
  apply NoDup_nil. exact I.
Qed.

Lemma NoDup_image_trace (w h : Z) : NoDup (image_trace w h).
Proof.
  unfold image_trace. apply NoDup_bind; [| | apply NoDup_seqZ].
  - intros r r' a _ _ (c & Ha & Hc%elem_of_seqZ)%list_elem_of_bind
      (c' & Ha' & Hc'%elem_of_seqZ)%list_elem_of_bind.
    apply (pixel_trace_inj w h r r' c c' a); [lia | lia | assumption | assumption].
  - intros r _. apply NoDup_bind; [| | apply NoDup_seqZ].
    + intros c c' a Hc%elem_of_seqZ Hc'%elem_of_seqZ Ha Ha'.
      apply (pixel_trace_inj w h r r c c' a); [lia | lia | assumption | assumption].
    + intros c _. apply NoDup_pixel_trace.
Qed.

Lemma image_trace_in_bounds (w h : Z) :
  0 <= w -> 0 <= h ->
  Forall (fun a => 0 <= access_pos a < w * h * 4) (image_trace w h).
Proof.
  intros Hw Hh. unfold image_trace.
  apply Forall_bind, Forall_seqZ. intros r Hr. cbn.
  apply Forall_bind, Forall_seqZ. intros c Hc. cbn.
  pose proof (pixel_in_image w h r c ltac:(lia) ltac:(lia)) as [Hp0 Hp3].
  pose proof (pixel_in_image w h (h - 1 - r) c ltac:(lia) ltac:(lia)) as [Hq0 Hq3].
  unfold pixel_trace, src_pos, dst_pos. cbn zeta.
  repeat (apply Forall_cons; split; [cbn [access_pos]; lia |]).
  apply Forall_nil. exact I.
Qed.

Lemma image_trace_empty (w h : Z) : w = 0 \/ h = 0 -> image_trace w h = [].
Proof.
  unfold image_trace. intros [-> | ->]; [| reflexivity].
  apply bind_all_nil. intros r. reflexivity.
Qed.

Lemma image_trace_covers (w h r c : Z) :
  0 <= r < h -> 0 <= c < w ->
  forall a, a ∈ pixel_trace w h r c -> a ∈ image_trace w h.
Proof.
  intros Hr Hc a Ha. unfold image_trace.
  apply list_elem_of_bind. exists r. split; [| apply elem_of_seqZ; lia].
  apply list_elem_of_bind. exists c. split; [assumption | apply elem_of_seqZ; lia].
Qed.

(** Every byte position of an image is a channel of one of its pixels. *)
Lemma byte_position_pixel (w h i : Z) :
  0 <= w -> 0 <= h -> 0 <= i < w * h * 4 ->
  exists r c k, 0 <= r < h /\ 0 <= c < w /\ 0 <= k <= 3 /\ i = src_pos w r c + k.
Proof.
  intros Hw Hh Hi.
  assert (0 < w) as Hw' by nia.
  pose proof (Z.div_mod i (w * 4) ltac:(lia)) as Hrow.
  pose proof (Z.mod_pos_bound i (w * 4) ltac:(lia)) as Hrem.
  pose proof (Z.div_mod (i mod (w * 4)) 4 ltac:(lia)) as Hcol.
  pose proof (Z.mod_pos_bound (i mod (w * 4)) 4 ltac:(lia)) as Hk.
  exists (i / (w * 4)), (i mod (w * 4) / 4), (i mod (w * 4) mod 4).
  split; [| split; [| split]].
  - split; [apply Z.div_pos; lia |].
    apply Z.div_lt_upper_bound; lia.
  - split; [apply Z.div_pos; lia |].
    apply Z.div_lt_upper_bound; lia.
  - lia.
  - unfold src_pos. lia.
Qed.

(** Two buffers holding an image of the same size are equal when they
    agree on the four bytes of every pixel. *)
Lemma buffer_eq_by_pixels (a b : Buffer) (w h : Z) :
  0 <= w -> 0 <= h ->
  buf_length a = w * h * 4 -> buf_length b = w * h * 4 ->
  (forall r c, 0 <= r < h -> 0 <= c < w ->
     let p := src_pos w r c in
     a !! Z.to_nat p = b !! Z.to_nat p /\
     a !! Z.to_nat (p + 1) = b !! Z.to_nat (p + 1) /\
     a !! Z.to_nat (p + 2) = b !! Z.to_nat (p + 2) /\
     a !! Z.to_nat (p + 3) = b !! Z.to_nat (p + 3)) ->
  a = b.
Proof.
  unfold buf_length. intros Hw Hh Ha Hb Hpix.
  apply list_eq. intros i.
  destruct (decide (Z.of_nat i < w * h * 4)) as [Hlt | Hge].
  - destruct (byte_position_pixel w h (Z.of_nat i)) as (r & c & k & Hr & Hc & Hk & Hi);
      [lia | lia | lia |].
    specialize (Hpix r c Hr Hc). cbn zeta in Hpix.
    destruct Hpix as (E0 & E1 & E2 & E3).
    rewrite <- (Nat2Z.id i), Hi.
    assert (k = 0 \/ k = 1 \/ k = 2 \/ k = 3) as [-> | [-> | [-> | ->]]] by lia;
      rewrite ?Z.add_0_r; assumption.
  - rewrite !lookup_ge_None_2 by lia. reflexivity.
Qed.

Lemma conv_inv_length (src : Buffer) (w h r c : Z) (m : mem) :
  conv_inv src w h r c m -> buf_length (m_dest m) = buf_length src.
Proof. intros (_ & Hl & _). unfold buf_length. rewrite Hl. reflexivity. Qed.

Lemma convertPNGtoDIB_run (fuel : nat) (src : Buffer) (w h bpp : Z) (m : mem) :
  convert_run fuel src w h bpp = Ok m ->
  convertPNGtoDIB fuel src w h bpp = Ok (m_dest m).
Proof. intros H. unfold convertPNGtoDIB. rewrite H. reflexivity. Qed.

(** The geometry of the two images: the pixel at row [r] of one sits at row
    [h - 1 - r] of the other. *)
Lemma dst_pos_flip (w h r c : Z) : dst_pos w h (h - 1 - r) c = src_pos w r c.
Proof. unfold dst_pos, src_pos. ring. Qed.

Lemma src_pos_flip (w h r c : Z) : src_pos w (h - 1 - r) c = dst_pos w h r c.
Proof. unfold dst_pos, src_pos. ring. Qed.

(** ** Claims about the pixel converter *)

(** C2. For a source buffer of length width x height x 4 with positive
    width and height, the conversion returns a new buffer of the same
    length in which the bytes (R, G, B, A) of the pixel at row [r], column
    [c], found at byte offset [r * rowBytes + c * 4] of the source, stand
    at byte offset [(height - 1 - r) * rowBytes + c * 4] in the order
    (B, G, R, A); the accesses made are those of every pixel once, none
    twice, and the source buffer is as it was. *)
Theorem convertPNGtoDIB_flips_rows_swaps_channels
  (fuel : nat) (src : Buffer) (width height : Z) :
  0 < width -> 0 < height ->
  buf_length src = width * height * 4 ->
  (Z.to_nat width < fuel)%nat -> (Z.to_nat height < fuel)%nat ->
  exists m,
    convert_run fuel src width height BPP_ALPHA = Ok m /\
    convertPNGtoDIB fuel src width height BPP_ALPHA = Ok (m_dest m) /\
    buf_length (m_dest m) = buf_length src /\
    (forall r c, 0 <= r < height -> 0 <= c < width ->
       let rowBytes := width * 4 in
       let p := r * rowBytes + c * 4 in
       let q := (height - 1 - r) * rowBytes + c * 4 in
       exists R G B A,
         src !! Z.to_nat p = Some R /\
         src !! Z.to_nat (p + 1) = Some G /\
         src !! Z.to_nat (p + 2) = Some B /\
         src !! Z.to_nat (p + 3) = Some A /\
         m_dest m !! Z.to_nat q = Some B /\
         m_dest m !! Z.to_nat (q + 1) = Some G /\
         m_dest m !! Z.to_nat (q + 2) = Some R /\
         m_dest m !! Z.to_nat (q + 3) = Some A) /\
    m_trace m = image_trace width height /\
    NoDup (m_trace m) /\
    (forall r c, 0 <= r < height -> 0 <= c < width ->
       forall a, a ∈ pixel_trace width height r c -> a ∈ m_trace m) /\
    m_src m = src.
Proof.
  intros Hw Hh Hlen Hfw Hfh.
  destruct (convert_run_Ok src width height ltac:(lia) ltac:(lia) Hlen fuel Hfw Hfh)
    as (m & Hrun & Hinv).
  pose proof (conv_inv_trace _ _ _ _ Hinv) as Htr.
  exists m. split; [exact Hrun |].
  split; [apply convertPNGtoDIB_run; exact Hrun |].
  split; [eapply conv_inv_length; exact Hinv |].
  split; [| split; [exact Htr | split; [| split]]].
  - intros r c Hr Hc. cbn zeta.
    destruct Hinv as (_ & _ & _ & Hpix).
    specialize (Hpix r c ltac:(lia) Hc ltac:(lia)). cbn zeta in Hpix.
    unfold src_pos, dst_pos in Hpix. destruct Hpix as (E0 & E1 & E2 & E3).
    pose proof (pixel_in_image width height r c Hr Hc) as [Hp0 Hp3].
    unfold buf_length in Hlen.
    destruct (lookup_in_range src (r * (width * 4) + c * 4)) as [R HR]; [lia |].
    destruct (lookup_in_range src (r * (width * 4) + c * 4 + 1)) as [G HG]; [lia |].
    destruct (lookup_in_range src (r * (width * 4) + c * 4 + 2)) as [B HB]; [lia |].
    destruct (lookup_in_range src (r * (width * 4) + c * 4 + 3)) as [A HA]; [lia |].
    exists R, G, B, A. rewrite E0, E1, E2, E3. auto 10.
  - rewrite Htr. apply NoDup_image_trace.
  - intros r c Hr Hc a Ha. rewrite Htr.
    apply (image_trace_covers width height r c); assumption.
  - destruct Hinv as (Hsrc & _). exact Hsrc.
Qed.

Lemma convertPNGtoDIB_flips_rows_swaps_channels_witness :
  exists m,
    convert_run 3 (map byte_of [1;2;3;4; 5;6;7;8]) 1 2 BPP_ALPHA = Ok m /\
    m_dest m = map byte_of [7;6;5;8; 3;2;1;4] /\
    m_src m = map byte_of [1;2;3;4; 5;6;7;8].
Proof.
  destruct (convertPNGtoDIB_flips_rows_swaps_channels
              3 (map byte_of [1;2;3;4; 5;6;7;8]) 1 2)
    as (m & Hrun & Hdib & Hlen & Hpix & Htr & Hnd & Hcov & Hsrc);
    [lia | lia | reflexivity | simpl; lia | simpl; lia |].
  exists m. split; [exact Hrun |]. split; [| exact Hsrc].
  vm_compute in Hrun. inversion Hrun. reflexivity.
Defined.

(** C10. When the source buffer has length width x height x 4, with
    width and height not negative, the conversion returns: no read of the
    source and no write of the destination is out of range, every byte
    position accessed lies in [0, width x height x 4), and for width 0 or
    height 0 the result is the empty buffer and no access is made. *)
Theorem convertPNGtoDIB_accesses_in_bounds
  (fuel : nat) (src : Buffer) (width height : Z) :
  0 <= width -> 0 <= height ->
  buf_length src = width * height * 4 ->
  (Z.to_nat width < fuel)%nat -> (Z.to_nat height < fuel)%nat ->
  exists m,
    convert_run fuel src width height BPP_ALPHA = Ok m /\
    convertPNGtoDIB fuel src width height BPP_ALPHA = Ok (m_dest m) /\
    Forall (fun a => 0 <= access_pos a < width * height * 4) (m_trace m) /\
    (width = 0 \/ height = 0 -> m_dest m = [] /\ m_trace m = []).
Proof.
  intros Hw Hh Hlen Hfw Hfh.
  destruct (convert_run_Ok src width height Hw Hh Hlen fuel Hfw Hfh)
    as (m & Hrun & Hinv).
  pose proof (conv_inv_trace _ _ _ _ Hinv) as Htr.
  exists m. split; [exact Hrun |].
  split; [apply convertPNGtoDIB_run; exact Hrun |].
  split.
  - rewrite Htr. apply image_trace_in_bounds; assumption.
  - intros Hzero. split.
    + apply conv_inv_length in Hinv. unfold buf_length in *.
      apply length_zero_iff_nil.
      destruct Hzero as [-> | ->]; lia.
    + rewrite Htr. apply image_trace_empty. exact Hzero.
Qed.

Lemma convertPNGtoDIB_accesses_in_bounds_witness :
  exists m,
    convert_run 8 [] 0 7 BPP_ALPHA = Ok m /\ m_dest m = [] /\ m_trace m = [].
Proof.
  destruct (convertPNGtoDIB_accesses_in_bounds 8 [] 0 7)
    as (m & Hrun & _ & _ & Hempty);
    [lia | lia | reflexivity | simpl; lia | simpl; lia |].
  exists m. split; [exact Hrun |]. apply Hempty. left. reflexivity.
Defined.

(** C9. The conversion is an involution: for a buffer of length
    width x height x 4, converting it and converting the result again,
    with the same width and height, gives the buffer back. *)
Theorem convertPNGtoDIB_involution
  (fuel : nat) (src : Buffer) (width height : Z) :
  0 <= width -> 0 <= height ->
  buf_length src = width * height * 4 ->
  (Z.to_nat width < fuel)%nat -> (Z.to_nat height < fuel)%nat ->
  exists dib,
    convertPNGtoDIB fuel src width height BPP_ALPHA = Ok dib /\
    convertPNGtoDIB fuel dib width height BPP_ALPHA = Ok src.
Proof.
  intros Hw Hh Hlen Hfw Hfh.
  destruct (convert_run_Ok src width height Hw Hh Hlen fuel Hfw Hfh)
    as (m1 & Hrun1 & Hinv1).
  pose proof (conv_inv_length _ _ _ _ _ _ Hinv1) as Hl1.
  destruct (convert_run_Ok (m_dest m1) width height Hw Hh ltac:(lia) fuel Hfw Hfh)
    as (m2 & Hrun2 & Hinv2).
  pose proof (conv_inv_length _ _ _ _ _ _ Hinv2) as Hl2.
  unfold BPP_ALPHA.
  exists (m_dest m1). split; [apply convertPNGtoDIB_run; exact Hrun1 |].
  rewrite (convertPNGtoDIB_run _ _ _ _ _ _ Hrun2). f_equal.
  apply (buffer_eq_by_pixels _ _ width height Hw Hh); [lia | lia |].
  intros r c Hr Hc. cbn zeta.
  destruct Hinv1 as (_ & _ & _ & Hpix1). destruct Hinv2 as (_ & _ & _ & Hpix2).
  specialize (Hpix1 r c ltac:(lia) Hc ltac:(lia)).
  specialize (Hpix2 (height - 1 - r) c ltac:(lia) Hc ltac:(lia)).
  cbn zeta in Hpix1, Hpix2.
  rewrite dst_pos_flip, src_pos_flip in Hpix2.
  destruct Hpix1 as (A0 & A1 & A2 & A3). destruct Hpix2 as (B0 & B1 & B2 & B3).
  rewrite B0, B1, B2, B3, A0, A1, A2, A3. auto.
Qed.

Lemma convertPNGtoDIB_involution_witness :
  exists dib,
    convertPNGtoDIB 3 (map byte_of [1;2;3;4; 5;6;7;8]) 1 2 BPP_ALPHA = Ok dib /\
    convertPNGtoDIB 3 dib 1 2 BPP_ALPHA = Ok (map byte_of [1;2;3;4; 5;6;7;8]).
Proof.
  apply (convertPNGtoDIB_involution 3 (map byte_of [1;2;3;4; 5;6;7;8]) 1 2);
    [lia | lia | reflexivity | simpl; lia | simpl; lia].
Defined.

(** ** The inverse transform *)

(** A list made of blocks of one length [n]: its length, and where the
    elements of block [i] are. *)
Lemma length_bind_blocks {A B : Type} (f : A -> list B) (n : nat) (l : list A) :
  (forall x, length (f x) = n) -> length (l ≫= f) = (length l * n)%nat.
Proof.
  intros Hf. induction l as [| x l IH]; [reflexivity |].
  rewrite bind_cons, length_app, Hf, IH. simpl. reflexivity.
Qed.

Lemma lookup_bind_blocks {A B : Type} (f : A -> list B) (n : nat) (l : list A) :
  (forall x, length (f x) = n) ->
  forall (i j : nat) (x : A), (j < n)%nat -> l !! i = Some x ->
  (l ≫= f) !! (i * n + j)%nat = f x !! j.
Proof.
  intros Hf. induction l as [| y l IH]; intros i j x Hj Hx; [discriminate |].
  rewrite bind_cons. destruct i as [| i].
  - injection Hx as ->. simpl. apply lookup_app_l. rewrite Hf. exact Hj.
  - simpl in Hx. rewrite lookup_app_r by (rewrite Hf; simpl; lia).
    rewrite Hf. replace (S i * n + j - n)%nat with (i * n + j)%nat by (simpl; lia).
    apply IH; assumption.
Qed.

Section inverse.
Variables (dib : Buffer) (w h : Z).
Hypothesis Hw : 0 <= w.
Hypothesis Hh : 0 <= h.

Lemma length_DIBtoPNG : buf_length (DIBtoPNG dib w h) = w * h * 4.
Proof.
  unfold DIBtoPNG, buf_length.
  rewrite (length_bind_blocks _ (Z.to_nat w * 4)).
  - rewrite length_seqZ. nia.
  - intros r. rewrite (length_bind_blocks _ 4); [| reflexivity].
    rewrite length_seqZ. reflexivity.
Qed.

(** The four bytes the inverse transform gives the pixel at row [r],
    column [c]. *)
Lemma lookup_DIBtoPNG (r c : Z) (j : nat) :
  0 <= r < h -> 0 <= c < w -> (j < 4)%nat ->
  DIBtoPNG dib w h !! (Z.to_nat (src_pos w r c) + j)%nat =
    let q := dst_pos w h r c in
    [byte_at dib (q + 2); byte_at dib (q + 1); byte_at dib q; byte_at dib (q + 3)] !! j.
Proof.
  intros Hr Hc Hj. unfold DIBtoPNG. cbn zeta.
  replace (Z.to_nat (src_pos w r c) + j)%nat
    with (Z.to_nat r * (Z.to_nat w * 4) + (Z.to_nat c * 4 + j))%nat
    by (unfold src_pos; nia).
  rewrite (lookup_bind_blocks _ (Z.to_nat w * 4) _) with (x := r).
  - rewrite (lookup_bind_blocks _ 4 _) with (x := c).
    + reflexivity.
    + reflexivity.
    + exact Hj.
    + rewrite lookup_seqZ_lt by lia. f_equal. lia.
  - intros r'. rewrite (length_bind_blocks _ 4); [| reflexivity].
    rewrite length_seqZ. reflexivity.
  - nia.
  - rewrite lookup_seqZ_lt by lia. f_equal. lia.
Qed.
End inverse.

Lemma byte_at_lookup (b : Buffer) (pos : Z) (o : option byte) :
  b !! Z.to_nat pos = o -> is_Some o -> Some (byte_at b pos) = o.
Proof. intros <- [x Hx]. unfold byte_at. rewrite Hx. reflexivity. Qed.

(** C6. For a buffer of length width x height x 4 in top-down RGBA order,
    the conversion followed by the inverse transform (rows back from
    bottom-up to top-down, channels back from BGRA to RGBA) gives the
    original buffer, byte for byte. *)
Theorem DIBtoPNG_convertPNGtoDIB
  (fuel : nat) (src : Buffer) (width height : Z) :
  0 <= width -> 0 <= height ->
  buf_length src = width * height * 4 ->
  (Z.to_nat width < fuel)%nat -> (Z.to_nat height < fuel)%nat ->
  exists dib,
    convertPNGtoDIB fuel src width height BPP_ALPHA = Ok dib /\
    DIBtoPNG dib width height = src.
Proof.
  intros Hw Hh Hlen Hfw Hfh.
  destruct (convert_run_Ok src width height Hw Hh Hlen fuel Hfw Hfh)
    as (m & Hrun & Hinv).
  exists (m_dest m). split; [apply convertPNGtoDIB_run; exact Hrun |].
  apply (buffer_eq_by_pixels _ _ width height Hw Hh);
    [apply length_DIBtoPNG; assumption | exact Hlen |].
  intros r c Hr Hc. cbn zeta.
  destruct Hinv as (_ & _ & _ & Hpix).
  specialize (Hpix r c ltac:(lia) Hc ltac:(lia)). cbn zeta in Hpix.
  destruct Hpix as (E0 & E1 & E2 & E3).
  pose proof (pixel_in_image width height r c Hr Hc) as [Hp0 Hp3].
  fold (src_pos width r c) in Hp0, Hp3. unfold buf_length in Hlen.
  pose proof (lookup_DIBtoPNG (m_dest m) width height Hw r c) as Hget.
  cbn zeta in Hget.
  replace (Z.to_nat (src_pos width r c + 1)) with (Z.to_nat (src_pos width r c) + 1)%nat by lia.
  replace (Z.to_nat (src_pos width r c + 2)) with (Z.to_nat (src_pos width r c) + 2)%nat by lia.
  replace (Z.to_nat (src_pos width r c + 3)) with (Z.to_nat (src_pos width r c) + 3)%nat by lia.
  rewrite <- (Nat.add_0_r (Z.to_nat (src_pos width r c))) at 1 2.
  rewrite !Hget by (assumption || lia). cbn [lookup list_lookup].
  rewrite Nat.add_0_r.
  repeat split.
  - apply byte_at_lookup; [exact E2 |]. apply lookup_lt_is_Some. lia.
  - apply byte_at_lookup; [| apply lookup_lt_is_Some; lia].
    rewrite E1. f_equal. lia.
  - apply byte_at_lookup; [| apply lookup_lt_is_Some; lia].
    rewrite E0. f_equal. lia.
  - apply byte_at_lookup; [| apply lookup_lt_is_Some; lia].
    rewrite E3. f_equal. lia.
Qed.

Lemma DIBtoPNG_convertPNGtoDIB_witness :
  exists dib,
    convertPNGtoDIB 3 (map byte_of [1;2;3;4; 5;6;7;8]) 1 2 BPP_ALPHA = Ok dib /\
    DIBtoPNG dib 1 2 = map byte_of [1;2;3;4; 5;6;7;8].
Proof.
  apply (DIBtoPNG_convertPNGtoDIB 3 (map byte_of [1;2;3;4; 5;6;7;8]) 1 2);
    [lia | lia | reflexivity | simpl; lia | simpl; lia].
Defined.

(** ** The builders *)

Lemma write_int_eq (n : nat) (lo hi : Z) (b : Buffer) (v off : Z) :
  lo <= v <= hi -> 0 <= off -> off + Z.of_nat n <= Z.of_nat (length b) ->
  write_int n lo hi b v off = Ok (store_le n b v (Z.to_nat off)).
Proof. intros. apply write_int_Ok. auto. Qed.

Lemma read_uint_eq (n : nat) (b : Buffer) (off : Z) :
  0 <= off -> off + Z.of_nat n <= Z.of_nat (length b) ->
  read_uint n b off = Ok (load_le n b (Z.to_nat off)).
Proof. intros. apply read_uint_Ok. auto. Qed.

Lemma length_alloc (n : Z) : length (alloc n) = Z.to_nat n.
Proof. unfold alloc. apply length_replicate. Qed.

(** Turns every successful write among the hypotheses into the range of
    its value. *)
Ltac write_inv :=
  repeat match goal with
    | H : write_int _ _ _ _ _ _ = Ok _ |- _ =>
        apply write_int_Ok in H; destruct H as (? & _ & _ & ?)
    end.

(** Runs the writes of a builder whose values are in range. *)
Ltac write_run :=
  repeat (rewrite write_int_eq
            by (rewrite ?length_store_le, ?length_alloc; simpl; lia);
          cbn [bind]).

Lemma createDirectory_Ok (png : PNG) (offset : Z) (d : Buffer) :
  createDirectory png offset = Ok d ->
  (0 <= width png /\ 0 <= height png /\
   buf_length (data png) + 40 <= 4294967295 /\ 0 <= offset <= 4294967295) /\
  d = directory_layout png offset.
Proof.
  unfold createDirectory, writeUInt8, writeUInt16LE, writeUInt32LE.
  intros H. bind_inv. write_inv. subst.
  split; [| reflexivity].
  unfold BITMAPINFOHEADER_SIZE in *.
  destruct (256 <=? width png) eqn:?, (256 <=? height png) eqn:?; lia.
Qed.

Lemma createDirectory_eq (png : PNG) (offset : Z) :
  0 <= width png -> 0 <= height png ->
  buf_length (data png) + 40 <= 4294967295 -> 0 <= offset <= 4294967295 ->
  createDirectory png offset = Ok (directory_layout png offset).
Proof.
  intros Hw Hh Hsize Hoff.
  unfold createDirectory, writeUInt8, writeUInt16LE, writeUInt32LE.
  assert (0 <= (if 256 <=? width png then 0 else width png) <= 255)
    by (destruct (256 <=? width png) eqn:?; lia).
  assert (0 <= (if 256 <=? height png then 0 else height png) <= 255)
    by (destruct (256 <=? height png) eqn:?; lia).
  unfold BITMAPINFOHEADER_SIZE, BPP_ALPHA, ICO_DIRECTORY_SIZE, buf_length in *.
  write_run. reflexivity.
Qed.

Lemma createBitmapInfoHeader_Ok (png : PNG) (compression : Z) (b : Buffer) :
  createBitmapInfoHeader png compression = Ok b ->
  (-2147483648 <= width png <= 2147483647 /\
   -2147483648 <= height png * 2 <= 2147483647 /\
   0 <= compression <= 4294967295 /\
   buf_length (data png) <= 4294967295) /\
  b = bitmap_info_layout png compression.
Proof.
  unfold createBitmapInfoHeader, writeUInt16LE, writeUInt32LE, writeInt32LE.
  intros H. bind_inv. write_inv. subst.
  split; [| reflexivity]. lia.
Qed.

Lemma createBitmapInfoHeader_eq (png : PNG) (compression : Z) :
  -2147483648 <= width png <= 2147483647 ->
  -2147483648 <= height png * 2 <= 2147483647 ->
  0 <= compression <= 4294967295 ->
  buf_length (data png) <= 4294967295 ->
  createBitmapInfoHeader png compression = Ok (bitmap_info_layout png compression).
Proof.
  intros Hw Hh Hc Hsize.
  unfold createBitmapInfoHeader, writeUInt16LE, writeUInt32LE, writeInt32LE.
  unfold BITMAPINFOHEADER_SIZE, BPP_ALPHA, buf_length in *.
  write_run. reflexivity.
Qed.

Lemma createFileHeader_Ok (count : Z) (b : Buffer) :
  createFileHeader count = Ok b ->
  0 <= count <= 65535 /\ b = file_header_layout count.
Proof.
  unfold createFileHeader, writeUInt16LE.
  intros H. bind_inv. write_inv. subst. split; [lia | reflexivity].
Qed.

Lemma createFileHeader_eq (count : Z) :
  0 <= count <= 65535 -> createFileHeader count = Ok (file_header_layout count).
Proof.
  intros Hc. unfold createFileHeader, writeUInt16LE, FILE_HEADER_SIZE.
  write_run. reflexivity.
Qed.

Lemma length_le_bytes (n : nat) : forall v, length (le_bytes n v) = n.
Proof. induction n as [| n IH]; intros v; simpl; [reflexivity |]. rewrite IH. reflexivity. Qed.

Lemma load_le_bytes (n : nat) : forall (p s : Buffer) (v : Z),
  load_le n (p ++ le_bytes n v ++ s) (length p) = v mod 2 ^ (8 * Z.of_nat n).
Proof.
  induction n as [| n IH]; intros p s v.
  - simpl. symmetry. apply Z.mod_1_r.
  - cbn [load_le le_bytes].
    rewrite lookup_app_r, Nat.sub_diag by lia. cbn [app lookup list_lookup].
    replace (p ++ byte_of v :: le_bytes n (Z.shiftr v 8) ++ s)
      with ((p ++ [byte_of v]) ++ le_bytes n (Z.shiftr v 8) ++ s)
      by (rewrite <- app_assoc; reflexivity).
    replace (S (length p)) with (length (p ++ [byte_of v]))
      by (rewrite length_app; simpl; lia).
    rewrite IH, byte_val_of, Z.shiftr_div_pow2 by lia.
    replace (8 * Z.of_nat (S n)) with (8 + 8 * Z.of_nat n) by lia.
    rewrite Z.pow_add_r by lia. change (2 ^ 8) with 256.
    symmetry. apply Z.rem_mul_r; [lia |]. apply Z.pow_pos_nonneg; lia.
Qed.

(** Reading back a field whose bytes are known. *)
Lemma read_uint_slice (n : nat) (b : Buffer) (off v : Z) :
  (0 < n)%nat -> 0 <= off -> slice b off (Z.of_nat n) = le_bytes n v ->
  read_uint n b off = Ok (v mod 2 ^ (8 * Z.of_nat n)).
Proof.
  unfold slice. rewrite Nat2Z.id. intros Hn Hoff Hs.
  assert (Z.to_nat off + n <= length b)%nat as Hlen.
  { apply (f_equal length) in Hs.
    rewrite length_take, length_drop, length_le_bytes in Hs. lia. }
  rewrite read_uint_eq by lia. f_equal.
  rewrite <- (take_drop (Z.to_nat off) b) at 1.
  rewrite <- (take_drop n (drop (Z.to_nat off) b)), Hs.
  replace (Z.to_nat off) with (length (take (Z.to_nat off) b)) at 3
    by (rewrite length_take; lia).
  apply load_le_bytes.
Qed.

Lemma readUInt8_slice (b : Buffer) (off v : Z) :
  0 <= off -> 0 <= v <= 255 -> slice b off 1 = le_bytes 1 v ->
  readUInt8 b off = Ok v.
Proof.
  intros Hoff Hv Hs. unfold readUInt8.
  rewrite (read_uint_slice 1 b off v ltac:(lia) Hoff Hs). f_equal. apply Z.mod_small. lia.
Qed.

Lemma readUInt16LE_slice (b : Buffer) (off v : Z) :
  0 <= off -> 0 <= v <= 65535 -> slice b off 2 = le_bytes 2 v ->
  readUInt16LE b off = Ok v.
Proof.
  intros Hoff Hv Hs. unfold readUInt16LE.
  rewrite (read_uint_slice 2 b off v ltac:(lia) Hoff Hs). f_equal. apply Z.mod_small. lia.
Qed.

Lemma readUInt32LE_slice (b : Buffer) (off v : Z) :
  0 <= off -> 0 <= v <= 4294967295 -> slice b off 4 = le_bytes 4 v ->
  readUInt32LE b off = Ok v.
Proof.
  intros Hoff Hv Hs. unfold readUInt32LE.
  rewrite (read_uint_slice 4 b off v ltac:(lia) Hoff Hs). f_equal. apply Z.mod_small. lia.
Qed.

Lemma readInt32LE_slice (b : Buffer) (off v : Z) :
  0 <= off -> -2147483648 <= v <= 2147483647 -> slice b off 4 = le_bytes 4 v ->
  readInt32LE b off = Ok v.
Proof.
  intros Hoff Hv Hs. unfold readInt32LE.
  rewrite (read_uint_slice 4 b off v ltac:(lia) Hoff Hs). cbn [bind]. f_equal.
  change (2 ^ (8 * Z.of_nat 4)) with 4294967296.
  destruct (decide (0 <= v)) as [Hpos | Hneg].
  - rewrite Z.mod_small by lia.
    destruct (2147483648 <=? v) eqn:E; lia.
  - replace (v mod 4294967296) with (v + 4294967296).
    + destruct (2147483648 <=? v + 4294967296) eqn:E; lia.
    + apply (Z.mod_unique _ _ (-1)); lia.
Qed.

(** C7. A bitmap info header that is emitted is exactly 40 bytes long and
    holds, little-endian: header size 40, the width as a signed number,
    twice the height as a signed number, planes 1, bits per pixel 32,
    compression 0, the length of the pixel buffer as image size, and 0 in
    the four remaining fields. It is emitted whenever width, twice the
    height and the buffer length fit their 32-bit fields. *)
Theorem createBitmapInfoHeader_fields (png : PNG) :
  (forall b, createBitmapInfoHeader png BI_RGB = Ok b ->
     buf_length b = 40 /\
     readUInt32LE b 0 = Ok 40 /\
     readInt32LE b 4 = Ok (width png) /\
     readInt32LE b 8 = Ok (height png * 2) /\
     readUInt16LE b 12 = Ok 1 /\
     readUInt16LE b 14 = Ok 32 /\
     readUInt32LE b 16 = Ok 0 /\
     readUInt32LE b 20 = Ok (buf_length (data png)) /\
     readInt32LE b 24 = Ok 0 /\
     readInt32LE b 28 = Ok 0 /\
     readUInt32LE b 32 = Ok 0 /\
     readUInt32LE b 36 = Ok 0) /\
  (-2147483648 <= width png <= 2147483647 ->
   -2147483648 <= height png * 2 <= 2147483647 ->
   buf_length (data png) <= 4294967295 ->
   exists b, createBitmapInfoHeader png BI_RGB = Ok b).
Proof.
  split.
  - intros b [(Hw & Hh & _ & Hl) ->]%createBitmapInfoHeader_Ok.
    assert (0 <= buf_length (data png)) by (unfold buf_length; lia).
    split; [reflexivity |].
    repeat split;
      first [ apply readUInt32LE_slice | apply readInt32LE_slice
            | apply readUInt16LE_slice ];
      first [ reflexivity | lia ].
  - intros Hw Hh Hl. exists (bitmap_info_layout png BI_RGB).
    apply createBitmapInfoHeader_eq; unfold BI_RGB; lia.
Qed.

Lemma createBitmapInfoHeader_fields_witness :
  exists b,
    createBitmapInfoHeader (mkPNG 16 16 (alloc 1024)) BI_RGB = Ok b /\
    readInt32LE b 4 = Ok 16 /\ readInt32LE b 8 = Ok 32 /\
    readUInt32LE b 20 = Ok 1024.
Proof.
  destruct (createBitmapInfoHeader_fields (mkPNG 16 16 (alloc 1024)))
    as [Hfields Hbuilt].
  destruct Hbuilt as (b & Hb);
    [cbn; lia | cbn; lia | vm_compute; discriminate |].
  exists b. split; [exact Hb |].
  destruct (Hfields b Hb) as (_ & _ & Hw & Hh & _ & _ & _ & Hl & _).
  repeat split; assumption.
Defined.
(** C5 (as amended). The width and height bytes of a directory entry hold 0
    for a dimension of 256 or more, and the dimension itself for every
    dimension below 256; an entry is built whenever the dimensions are not
    negative and size and offset fit their 32-bit fields. *)
Theorem createDirectory_dimension_bytes (png : PNG) (offset : Z) :
  (forall d, createDirectory png offset = Ok d ->
     (256 <= width png -> readUInt8 d 0 = Ok 0) /\
     (width png < 256 -> readUInt8 d 0 = Ok (width png)) /\
     (256 <= height png -> readUInt8 d 1 = Ok 0) /\
     (height png < 256 -> readUInt8 d 1 = Ok (height png))) /\
  (0 <= width png -> 0 <= height png ->
   buf_length (data png) + 40 <= 4294967295 -> 0 <= offset <= 4294967295 ->
   exists d, createDirectory png offset = Ok d).
Proof.
  split.
  - intros d [(Hw & Hh & _) ->]%createDirectory_Ok.
    repeat split; intros Hdim; apply readUInt8_slice; try lia;
      unfold slice, directory_layout; cbn [Z.to_nat Pos.to_nat Pos.iter_op Nat.add];
      cbn [le_bytes app drop take].
    + assert ((256 <=? width png) = true) as -> by lia. reflexivity.
    + assert ((256 <=? width png) = false) as -> by lia. reflexivity.
    + assert ((256 <=? height png) = true) as -> by lia. reflexivity.
    + assert ((256 <=? height png) = false) as -> by lia. reflexivity.
  - intros Hw Hh Hs Ho. exists (directory_layout png offset).
    apply createDirectory_eq; assumption.
Qed.

(** C5 as stated fails: a dimension of 512 is not 256, and its byte is 0,
    not the dimension. *)
Lemma createDirectory_clamps_512 :
  exists png d,
    createDirectory png 22 = Ok d /\
    buf_length (data png) = width png * height png * 4 /\
    width png <> 256 /\
    readUInt8 d 0 = Ok 0 /\
    readUInt8 d 0 <> Ok (width png).
Proof.
  exists (mkPNG 512 512 (alloc 1048576)).
  eexists. split; [vm_compute; reflexivity |].
  split; [vm_compute; reflexivity |].
  split; [discriminate |].
  split; [vm_compute; reflexivity | vm_compute; discriminate].
Qed.

(** ** The converter keeps the length of its buffer *)

Lemma dest_writeUInt8_length (v pos : Z) (m m' : mem) :
  dest_writeUInt8 v pos m = Ok m' -> length (m_dest m') = length (m_dest m).
Proof.
  unfold dest_writeUInt8, writeUInt8. intros H. bind_inv.
  apply write_int_Ok in Hw as (_ & _ & _ & ->).
  cbn [m_dest]. apply length_store_le.
Qed.

Lemma src_readUInt8_dest (pos v : Z) (m m' : mem) :
  src_readUInt8 pos m = Ok (v, m') -> m_dest m' = m_dest m.
Proof. unfold src_readUInt8. intros H. bind_inv. reflexivity. Qed.

Lemma convert_pixel_length (rowEnd row col : Z) (m m' : mem) :
  convert_pixel rowEnd row col m = Ok m' -> length (m_dest m') = length (m_dest m).
Proof.
  unfold convert_pixel. intros H.
  repeat match goal with
    | H : bind _ _ = Ok _ |- _ =>
        apply bind_Ok in H; destruct H as (? & ? & H)
    | p : (Z * mem)%type |- _ => destruct p
    end.
  inversion H; subst; clear H.
  repeat match goal with
    | H : dest_writeUInt8 _ _ _ = Ok _ |- _ =>
        apply dest_writeUInt8_length in H
    | H : src_readUInt8 _ _ = Ok _ |- _ =>
        apply src_readUInt8_dest in H
    end.
  congruence.
Qed.

Lemma for_col_length (fuel : nat) : forall (cols bpp rowEnd row col : Z) (m m' : mem),
  for_col fuel cols bpp rowEnd row col m = Ok m' ->
  length (m_dest m') = length (m_dest m).
Proof.
  induction fuel as [| fuel IH]; intros cols bpp rowEnd row col m m' H;
    cbn [for_col] in H; [discriminate |].
  destruct (col <? cols).
  - apply bind_Ok in H as (m1 & H1 & H).
    apply IH in H. apply convert_pixel_length in H1. congruence.
  - inversion H. reflexivity.
Qed.

Lemma for_row_length (cfuel fuel : nat) : forall (cols rows bpp rowEnd row : Z) (m m' : mem),
  for_row fuel cfuel cols rows bpp rowEnd row m = Ok m' ->
  length (m_dest m') = length (m_dest m).
Proof.
  induction fuel as [| fuel IH]; intros cols rows bpp rowEnd row m m' H;
    cbn [for_row] in H; [discriminate |].
  destruct (row <? rows).
  - apply bind_Ok in H as (m1 & H1 & H).
    apply IH in H. apply for_col_length in H1. congruence.
  - inversion H. reflexivity.
Qed.

Lemma convertPNGtoDIB_length (fuel : nat) (src dib : Buffer) (w h bpp : Z) :
  convertPNGtoDIB fuel src w h bpp = Ok dib -> buf_length dib = buf_length src.
Proof.
  unfold convertPNGtoDIB, convert_run. intros H.
  apply bind_Ok in H as (m & H & E). inversion E; subst; clear E.
  apply for_row_length in H. cbn [m_dest] in H.
  unfold buf_length. rewrite H, length_alloc. unfold buf_length. lia.
Qed.

(** ** What the writers queue *)

Lemma payload_size_nonneg (pngs : list PNG) : 0 <= payload_size pngs.
Proof.
  induction pngs as [| png rest IH]; cbn [payload_size]; [lia |].
  unfold buf_length, BITMAPINFOHEADER_SIZE. lia.
Qed.

Lemma writeDirectories_loop_Ok (pngs : list PNG) :
  forall (offset : Z) (stream out : Stream),
  writeDirectories_loop pngs offset stream = Ok out ->
  out = stream ++ directory_chunks pngs offset /\
  (forall i png, pngs !! i = Some png ->
     let off := offset + payload_size (take i pngs) in
     createDirectory png off = Ok (directory_layout png off)).
Proof.
  induction pngs as [| png rest IH]; intros offset stream out H;
    cbn [writeDirectories_loop] in H.
  - inversion H. split; [symmetry; apply app_nil_r |].
    intros i png Hi. discriminate.
  - apply bind_Ok in H as (d & Hd & H).
    pose proof Hd as [_ ->]%createDirectory_Ok.
    apply IH in H as [-> Hrest]. split.
    + unfold stream_write. rewrite <- app_assoc. reflexivity.
    + intros [| i] p Hi; cbn [take payload_size lookup list_lookup] in *.
      * injection Hi as <-. rewrite Z.add_0_r. exact Hd.
      * specialize (Hrest i p Hi). cbn zeta in Hrest.
        replace (offset + (buf_length (data png) + BITMAPINFOHEADER_SIZE
                           + payload_size (take i rest)))
          with (offset + (buf_length (data png) + BITMAPINFOHEADER_SIZE)
                + payload_size (take i rest)) by lia.
        exact Hrest.
Qed.

Lemma writeDirectories_loop_eq (pngs : list PNG) :
  forall (offset : Z) (stream : Stream),
  Forall (fun png => 0 <= width png /\ 0 <= height png) pngs ->
  0 <= offset -> offset + payload_size pngs <= 4294967295 ->
  writeDirectories_loop pngs offset stream
  = Ok (stream ++ directory_chunks pngs offset).
Proof.
  induction pngs as [| png rest IH]; intros offset stream Hdim Hoff Hmax;
    cbn [writeDirectories_loop directory_chunks].
  - rewrite app_nil_r. reflexivity.
  - apply Forall_cons in Hdim as [[Hw Hh] Hdim].
    pose proof (payload_size_nonneg rest) as Hrest.
    cbn [payload_size] in Hmax.
    assert (0 <= buf_length (data png)) by (unfold buf_length; lia).
    unfold BITMAPINFOHEADER_SIZE in *.
    rewrite createDirectory_eq by lia. cbn [bind].
    rewrite IH by (assumption || lia).
    unfold stream_write. rewrite <- app_assoc. reflexivity.
Qed.

Lemma writePNGs_Ok (fuel : nat) (pngs : list PNG) :
  forall (stream out : Stream),
  writePNGs fuel pngs stream = Ok out ->
  exists dibs,
    converted fuel pngs dibs /\
    out = stream ++ block_chunks pngs dibs /\
    Forall (fun png => createBitmapInfoHeader png BI_RGB
                       = Ok (bitmap_info_layout png BI_RGB)) pngs.
Proof.
  unfold converted.
  induction pngs as [| png rest IH]; intros stream out H; cbn [writePNGs] in H.
  - inversion H. exists []. split; [constructor |].
    split; [symmetry; apply app_nil_r | constructor].
  - apply bind_Ok in H as (hdr & Hhdr & H).
    pose proof Hhdr as [_ ->]%createBitmapInfoHeader_Ok.
    apply bind_Ok in H as (dib & Hdib & H).
    apply IH in H as (dibs & Hall & -> & Hhdrs).
    exists (dib :: dibs). split; [constructor; assumption |]. split.
    + unfold stream_write. cbn [block_chunks]. rewrite <- !app_assoc. reflexivity.
    + constructor; assumption.
Qed.

Lemma writePNGs_eq (fuel : nat) (pngs : list PNG) :
  forall (dibs : list Buffer) (stream : Stream),
  Forall (fun png => -2147483648 <= width png <= 2147483647 /\
                     -2147483648 <= height png * 2 <= 2147483647 /\
                     buf_length (data png) <= 4294967295) pngs ->
  converted fuel pngs dibs ->
  writePNGs fuel pngs stream = Ok (stream ++ block_chunks pngs dibs).
Proof.
  unfold converted.
  induction pngs as [| png rest IH]; intros dibs stream Hfit Hall;
    inversion Hall as [| ? dib ? dibs' Hdib Hall']; subst;
    cbn [writePNGs block_chunks].
  - rewrite app_nil_r. reflexivity.
  - apply Forall_cons in Hfit as [(Hw & Hh & Hl) Hfit].
    rewrite createBitmapInfoHeader_eq by (unfold BI_RGB; lia). cbn [bind].
    rewrite Hdib. cbn [bind].
    rewrite (IH dibs') by assumption.
    unfold stream_write. rewrite <- !app_assoc. reflexivity.
Qed.

(** ** The 'ready' listener *)

Lemma on_ready_Ok (fuel : nat) (pngs : list PNG) (stream : Stream) :
  on_ready fuel pngs [] = Ok stream ->
  exists dibs,
    converted fuel pngs dibs /\
    stream = [file_header_layout (Z.of_nat (length pngs))]
             ++ directory_chunks pngs (block_start pngs 0)
             ++ block_chunks pngs dibs /\
    Z.of_nat (length pngs) <= 65535 /\
    (forall i png, pngs !! i = Some png ->
       createDirectory png (block_start pngs i)
       = Ok (directory_layout png (block_start pngs i))) /\
    Forall (fun png => createBitmapInfoHeader png BI_RGB
                       = Ok (bitmap_info_layout png BI_RGB)) pngs.
Proof.
  unfold on_ready, writeDirectories. intros H.
  apply bind_Ok in H as (hdr & [Hcount ->]%createFileHeader_Ok & H).
  apply bind_Ok in H as (s1 & [-> Hdirs]%writeDirectories_loop_Ok & H).
  apply bind_Ok in H as (s2 & (dibs & Hconv & -> & Hhdrs)%writePNGs_Ok & H).
  inversion H; subst; clear H.
  exists dibs. split; [exact Hconv |]. split.
  - unfold stream_write, block_start. cbn [take payload_size app].
    rewrite Z.add_0_r. reflexivity.
  - split; [lia |]. split; [| exact Hhdrs].
    intros i png Hi. apply (Hdirs i png Hi).
Qed.

Lemma take_length_self {A : Type} (l : list A) : take (length l) l = l.
Proof. apply take_ge. lia. Qed.

Lemma converted_total (fuel : nat) (pngs : list PNG) :
  Forall (fun png => 0 <= width png /\ 0 <= height png /\
                     buf_length (data png) = width png * height png * 4) pngs ->
  enough_fuel fuel pngs ->
  exists dibs, converted fuel pngs dibs.
Proof.
  unfold enough_fuel, converted.
  induction pngs as [| png rest IH]; intros Hfit Hfuel.
  - exists []. constructor.
  - apply Forall_cons in Hfit as [(Hw & Hh & Hlen) Hfit].
    apply Forall_cons in Hfuel as [[Hfw Hfh] Hfuel].
    destruct (IH Hfit Hfuel) as (dibs & Hall).
    destruct (convert_run_Ok (data png) (width png) (height png) Hw Hh Hlen fuel Hfw Hfh)
      as (m & Hrun & _).
    exists (m_dest m :: dibs). constructor; [| assumption].
    apply convertPNGtoDIB_run. exact Hrun.
Qed.

Lemma on_ready_total (fuel : nat) (pngs : list PNG) :
  fits_container pngs -> enough_fuel fuel pngs ->
  exists dibs,
    converted fuel pngs dibs /\
    on_ready fuel pngs [] =
      Ok ([file_header_layout (Z.of_nat (length pngs))]
          ++ directory_chunks pngs (block_start pngs 0)
          ++ block_chunks pngs dibs).
Proof.
  intros (Hcount & Hsize & Hfit) Hfuel.
  destruct (converted_total fuel pngs) as (dibs & Hconv); [| assumption |].
  { eapply Forall_impl; [exact Hfit |]. cbn. intros png ?. lia. }
  exists dibs. split; [exact Hconv |].
  unfold block_start in *. rewrite take_length_self in Hsize.
  pose proof (payload_size_nonneg pngs) as Hpay.
  unfold on_ready, writeDirectories.
  rewrite createFileHeader_eq by lia. cbn [bind].
  unfold FILE_HEADER_SIZE, ICO_DIRECTORY_SIZE in *.
  rewrite writeDirectories_loop_eq; [| | lia | lia].
  - cbn [bind]. rewrite (writePNGs_eq fuel pngs dibs); [| | exact Hconv].
    + cbn [bind take payload_size]. unfold stream_write.
      rewrite Z.add_0_r, <- app_assoc. reflexivity.
    + assert (Forall (fun png => buf_length (data png) <= payload_size pngs) pngs) as Hle.
      { clear. induction pngs as [| png rest IH]; constructor.
        - cbn [payload_size]. pose proof (payload_size_nonneg rest).
          unfold BITMAPINFOHEADER_SIZE. lia.
        - eapply Forall_impl; [exact IH |]. cbn. intros p Hp.
          cbn [payload_size]. unfold buf_length, BITMAPINFOHEADER_SIZE in *. lia. }
      rewrite Forall_forall in Hfit, Hle. apply Forall_forall. intros png Hin.
      specialize (Hfit png Hin). specialize (Hle png Hin). lia.
  - eapply Forall_impl; [exact Hfit |]. cbn. intros png ?. lia.
Qed.

(** ** Byte positions in the container *)

Lemma length_directory_layout (png : PNG) (offset : Z) :
  length (directory_layout png offset) = 16%nat.
Proof. reflexivity. Qed.

Lemma length_bitmap_info_layout (png : PNG) (compression : Z) :
  length (bitmap_info_layout png compression) = 40%nat.
Proof. reflexivity. Qed.

Lemma length_concat_directory_chunks (pngs : list PNG) : forall offset,
  length (concat (directory_chunks pngs offset)) = (16 * length pngs)%nat.
Proof.
  induction pngs as [| png rest IH]; intros offset; [reflexivity |].
  cbn [directory_chunks concat]. rewrite length_app, IH, length_directory_layout.
  simpl. lia.
Qed.

(** Entry [i] of the directory: sixteen bytes after the entries before it,
    its offset the running offset. *)
Lemma concat_directory_chunks (pngs : list PNG) :
  forall (offset : Z) (i : nat) (png : PNG),
  pngs !! i = Some png ->
  exists pre post,
    concat (directory_chunks pngs offset)
    = pre ++ directory_layout png (offset + payload_size (take i pngs)) ++ post /\
    length pre = (16 * i)%nat.
Proof.
  induction pngs as [| p rest IH]; intros offset i png Hi; [discriminate |].
  cbn [directory_chunks concat]. destruct i as [| i].
  - injection Hi as ->. exists [], (concat (directory_chunks rest
      (offset + (buf_length (data png) + BITMAPINFOHEADER_SIZE)))).
    cbn [take payload_size]. rewrite Z.add_0_r. split; reflexivity.
  - cbn [lookup list_lookup] in Hi.
    destruct (IH (offset + (buf_length (data p) + BITMAPINFOHEADER_SIZE)) i png Hi)
      as (pre & post & -> & Hpre).
    exists (directory_layout p offset ++ pre), post. split.
    + cbn [take payload_size]. rewrite <- app_assoc. do 4 f_equal. lia.
    + rewrite length_app, length_directory_layout, Hpre. lia.
Qed.

(** Block [i]: a bitmap info header and its pixel data, after the blocks
    of the images before it. *)
Lemma concat_block_chunks (fuel : nat) (pngs : list PNG) :
  forall (dibs : list Buffer) (i : nat) (png : PNG),
  converted fuel pngs dibs ->
  pngs !! i = Some png ->
  exists dib pre post,
    convertPNGtoDIB fuel (data png) (width png) (height png) BPP_ALPHA = Ok dib /\
    concat (block_chunks pngs dibs)
    = pre ++ bitmap_info_layout png BI_RGB ++ dib ++ post /\
    buf_length pre = payload_size (take i pngs).
Proof.
  unfold converted.
  induction pngs as [| p rest IH]; intros dibs i png Hconv Hi; [discriminate |].
  inversion Hconv as [| ? d ? dibs' Hd Hconv']; subst.
  cbn [block_chunks concat]. destruct i as [| i].
  - injection Hi as ->. exists d, [], (concat (block_chunks rest dibs')).
    split; [exact Hd |]. split; reflexivity.
  - cbn [lookup list_lookup] in Hi.
    destruct (IH dibs' i png Hconv' Hi) as (dib & pre & post & Hdib & -> & Hpre).
    exists dib, (bitmap_info_layout p BI_RGB ++ d ++ pre), post.
    split; [exact Hdib |]. split.
    + rewrite <- !app_assoc. reflexivity.
    + apply convertPNGtoDIB_length in Hd.
      cbn [take payload_size]. unfold buf_length in *.
      rewrite !length_app, length_bitmap_info_layout.
      unfold BITMAPINFOHEADER_SIZE. lia.
Qed.

Lemma length_block_chunks (fuel : nat) (pngs : list PNG) : forall dibs,
  converted fuel pngs dibs ->
  length (block_chunks pngs dibs) = (2 * length pngs)%nat.
Proof.
  unfold converted. induction pngs as [| p rest IH]; intros dibs Hconv;
    inversion Hconv; subst; [reflexivity |].
  cbn [block_chunks length]. rewrite (IH l'); [lia | assumption].
Qed.

Lemma length_directory_chunks (pngs : list PNG) : forall offset,
  length (directory_chunks pngs offset) = length pngs.
Proof.
  induction pngs as [| p rest IH]; intros offset; [reflexivity |].
  cbn [directory_chunks length]. rewrite IH. reflexivity.
Qed.

Lemma Forall_directory_chunks (pngs : list PNG) : forall offset,
  Forall (fun d => buf_length d = ICO_DIRECTORY_SIZE) (directory_chunks pngs offset).
Proof.
  induction pngs as [| p rest IH]; intros offset; constructor; [reflexivity | apply IH].
Qed.

Lemma block_start_succ (pngs : list PNG) (i : nat) (png : PNG) :
  pngs !! i = Some png ->
  block_start pngs (S i)
  = block_start pngs i + buf_length (data png) + BITMAPINFOHEADER_SIZE.
Proof.
  intros Hi. unfold block_start.
  rewrite (take_S_r pngs i png Hi).
  assert (forall l, payload_size (l ++ [png])
                    = payload_size l + buf_length (data png) + BITMAPINFOHEADER_SIZE) as E.
  { induction l as [| x l IH]; cbn [app payload_size]; [lia | rewrite IH; lia]. }
  rewrite E. lia.
Qed.

(** The offset field of an entry that stands at its place in the bytes. *)
Lemma offset_field_at (pre post : Buffer) (png : PNG) (offset : Z) (i : nat) :
  length pre = (6 + 16 * i)%nat -> 0 <= offset <= 4294967295 ->
  offset_field (pre ++ directory_layout png offset ++ post) i = Ok offset.
Proof.
  intros Hpre Hoff. unfold offset_field.
  apply readUInt32LE_slice; [unfold FILE_HEADER_SIZE, ICO_DIRECTORY_SIZE; lia | lia |].
  unfold slice, FILE_HEADER_SIZE, ICO_DIRECTORY_SIZE.
  replace (Z.to_nat (6 + 16 * Z.of_nat i + 12)) with (length pre + 12)%nat by lia.
  rewrite drop_app_add. reflexivity.
Qed.

(** ** The generate operation *)

Lemma createIconFile_Resolved (env : Env) (fuel : nat) (pngs : list PNG)
  (path : string) (fs fs' : gmap string Buffer) :
  createIconFile env fuel pngs path fs = (fs', Resolved tt) ->
  pngs <> [] /\ no_faults env path /\
  exists stream,
    on_ready fuel pngs [] = Ok stream /\
    fs' = <[path := concat stream]> (<[path := []]> fs).
Proof.
  unfold createIconFile, no_faults.
  destruct pngs as [| png rest]; [discriminate |]. cbn [length Nat.eqb].
  destruct (open_fault env path); [discriminate |].
  destruct (on_ready fuel (png :: rest) []) as [stream | e |]; try discriminate.
  destruct (write_fault env) as [[n err] |]; [discriminate |].
  destruct (end_fault env); [discriminate |].
  intros H. inversion H; subst.
  split; [discriminate |]. split; [auto |]. exists stream. auto.
Qed.

Lemma createIconFile_eq (env : Env) (fuel : nat) (pngs : list PNG)
  (path : string) (fs : gmap string Buffer) (stream : Stream) :
  pngs <> [] -> no_faults env path -> on_ready fuel pngs [] = Ok stream ->
  createIconFile env fuel pngs path fs
  = (<[path := concat stream]> (<[path := []]> fs), Resolved tt).
Proof.
  intros Hne (Ho & Hw & He) Hready. unfold createIconFile.
  destruct pngs as [| png rest]; [congruence |]. cbn [length Nat.eqb].
  rewrite Ho, Hready, Hw, He. reflexivity.
Qed.

Lemma generateICO_Resolved (env : Env) (fuel : nat) (images : list ImageInfo)
  (dir : string) (options : Options) (w w' : World) (path : string) :
  generateICO env fuel images dir options w = (w', Resolved path) ->
  path = dest_path env dir options /\
  exists pngs stream,
    readPNGs env (files w) images (opt_sizes options) = Ok pngs /\
    pngs <> [] /\
    on_ready fuel pngs [] = Ok stream /\
    files w' !! path = Some (concat stream).
Proof.
  unfold generateICO, on_catch. cbn [logger_log files logged].
  destruct (readPNGs env (files w) images (opt_sizes options)) as [pngs | e |].
  - destruct (createIconFile env fuel pngs (dest_path env dir options) (files w))
      as [fs [[] | e | e |]] eqn:Hc.
    + intros H. inversion H; subst; clear H.
      apply createIconFile_Resolved in Hc as (Hne & _ & stream & Hready & ->).
      split; [reflexivity |]. exists pngs, stream.
      repeat split; try assumption.
      cbn [files]. apply lookup_insert_eq.
    + cbn [files logged].
      destruct (unlinkSync fs (dest_path env dir options)); discriminate.
    + discriminate.
    + discriminate.
  - cbn [files]. destruct (unlinkSync (files w) (dest_path env dir options)); discriminate.
  - discriminate.
Qed.

Lemma generateICO_resolves (env : Env) (fuel : nat) (images : list ImageInfo)
  (dir : string) (options : Options) (w : World) (pngs : list PNG) :
  readPNGs env (files w) images (opt_sizes options) = Ok pngs ->
  pngs <> [] -> fits_container pngs -> enough_fuel fuel pngs ->
  no_faults env (dest_path env dir options) ->
  exists w', generateICO env fuel images dir options w
             = (w', Resolved (dest_path env dir options)).
Proof.
  intros Hread Hne Hfit Hfuel Hnf.
  destruct (on_ready_total fuel pngs Hfit Hfuel) as (dibs & _ & Hready).
  unfold generateICO. cbn [logger_log files logged].
  rewrite Hread, (createIconFile_eq _ _ _ _ _ _ Hne Hnf Hready).
  eexists. reflexivity.
Qed.

(** ** The container *)

Lemma block_start_0 (pngs : list PNG) (i : nat) :
  block_start pngs 0 + payload_size (take i pngs) = block_start pngs i.
Proof.
  unfold block_start. change (take 0 pngs) with (@nil PNG).
  cbn [payload_size]. lia.
Qed.

(** The bytes of a container that was written whole: the file header, the
    directory, the blocks. *)
Lemma container_bytes (fuel : nat) (pngs : list PNG) (stream : Stream) :
  on_ready fuel pngs [] = Ok stream ->
  exists dibs,
    converted fuel pngs dibs /\
    concat stream
    = file_header_layout (Z.of_nat (length pngs))
      ++ concat (directory_chunks pngs (block_start pngs 0))
      ++ concat (block_chunks pngs dibs).
Proof.
  intros (dibs & Hconv & -> & _)%on_ready_Ok.
  exists dibs. split; [exact Hconv |].
  cbn [app concat]. rewrite concat_app. reflexivity.
Qed.

(** Entry [i] of a container holds the start of block [i], and block [i]
    starts there. *)
Lemma container_entry (fuel : nat) (pngs : list PNG) (stream : Stream)
  (i : nat) (png : PNG) :
  on_ready fuel pngs [] = Ok stream ->
  pngs !! i = Some png ->
  offset_field (concat stream) i = Ok (block_start pngs i) /\
  exists dib pre post,
    createBitmapInfoHeader png BI_RGB = Ok (bitmap_info_layout png BI_RGB) /\
    convertPNGtoDIB fuel (data png) (width png) (height png) BPP_ALPHA = Ok dib /\
    concat stream = pre ++ bitmap_info_layout png BI_RGB ++ dib ++ post /\
    buf_length pre = block_start pngs i.
Proof.
  intros Hready Hi.
  destruct (container_bytes fuel pngs stream Hready) as (dibs & Hconv & ->).
  apply on_ready_Ok in Hready as (_ & _ & _ & _ & Hdirs & Hhdrs).
  split.
  - destruct (concat_directory_chunks pngs (block_start pngs 0) i png Hi)
      as (pre & post & -> & Hpre).
    rewrite block_start_0.
    specialize (Hdirs i png Hi). apply createDirectory_Ok in Hdirs as [(_ & _ & _ & Hoff) _].
    replace (file_header_layout (Z.of_nat (length pngs))
             ++ (pre ++ directory_layout png (block_start pngs i) ++ post)
             ++ concat (block_chunks pngs dibs))
      with ((file_header_layout (Z.of_nat (length pngs)) ++ pre)
            ++ directory_layout png (block_start pngs i)
            ++ (post ++ concat (block_chunks pngs dibs)))
      by (rewrite <- !app_assoc; reflexivity).
    apply offset_field_at; [| exact Hoff].
    rewrite length_app, Hpre. reflexivity.
  - destruct (concat_block_chunks fuel pngs dibs i png Hconv Hi)
      as (dib & pre & post & Hdib & -> & Hpre).
    exists dib,
      (file_header_layout (Z.of_nat (length pngs))
       ++ concat (directory_chunks pngs (block_start pngs 0)) ++ pre), post.
    split; [exact (proj1 (Forall_forall _ _) Hhdrs png (list_elem_of_lookup_2 _ _ _ Hi)) |].
    split; [exact Hdib |]. split; [rewrite <- !app_assoc; reflexivity |].
    unfold buf_length in *.
    rewrite !length_app, length_concat_directory_chunks.
    change (length (file_header_layout (Z.of_nat (length pngs)))) with 6%nat.
    unfold block_start, FILE_HEADER_SIZE, ICO_DIRECTORY_SIZE. lia.
Qed.

(** C1. In a container that generate has written, the directory entry of
    image 0 carries offset 6 + 16 x count; the entry of each later image
    carries the offset of the entry before it plus that image's pixel
    buffer length plus 40; and each entry's offset is the byte position at
    which the image's 40-byte bitmap info header begins, its converted
    pixel data following. The container is written whenever the images fit
    its fields and the stream does not fail. *)
Theorem generateICO_entry_offsets (env : Env) (fuel : nat)
  (images : list ImageInfo) (dir : string) (options : Options) (w : World)
  (pngs : list PNG) :
  readPNGs env (files w) images (opt_sizes options) = Ok pngs ->
  pngs <> [] ->
  (fits_container pngs -> enough_fuel fuel pngs ->
   no_faults env (dest_path env dir options) ->
   exists w', generateICO env fuel images dir options w
              = (w', Resolved (dest_path env dir options))) /\
  (forall w' path,
     generateICO env fuel images dir options w = (w', Resolved path) ->
     exists out,
       files w' !! path = Some out /\
       forall i png, pngs !! i = Some png ->
         exists off,
           offset_field out i = Ok off /\
           (i = 0%nat ->
            off = FILE_HEADER_SIZE + ICO_DIRECTORY_SIZE * Z.of_nat (length pngs)) /\
           (forall j prev, i = S j -> pngs !! j = Some prev ->
              exists off_prev,
                offset_field out j = Ok off_prev /\
                off = off_prev + buf_length (data prev) + BITMAPINFOHEADER_SIZE) /\
           exists header dib pre post,
             createBitmapInfoHeader png BI_RGB = Ok header /\
             buf_length header = BITMAPINFOHEADER_SIZE /\
             convertPNGtoDIB fuel (data png) (width png) (height png) BPP_ALPHA
             = Ok dib /\
             out = pre ++ header ++ dib ++ post /\
             buf_length pre = off).
Proof.
  intros Hread Hne. split.
  - intros Hfit Hfuel Hnf.
    apply (generateICO_resolves env fuel images dir options w pngs); assumption.
  - intros w' path (_ & pngs' & stream & Hread' & _ & Hready & Hfile)%generateICO_Resolved.
    assert (pngs' = pngs) as -> by congruence.
    exists (concat stream). split; [exact Hfile |].
    intros i png Hi.
    destruct (container_entry fuel pngs stream i png Hready Hi)
      as (Hoff & dib & pre & post & Hhdr & Hdib & Hout & Hpre).
    exists (block_start pngs i). split; [exact Hoff |]. split; [| split].
    + intros ->. unfold block_start. change (take 0 pngs) with (@nil PNG).
      cbn [payload_size]. lia.
    + intros j prev -> Hj.
      exists (block_start pngs j). split.
      * apply (container_entry fuel pngs stream j prev Hready Hj).
      * apply block_start_succ. exact Hj.
    + exists (bitmap_info_layout png BI_RGB), dib, pre, post.
      repeat split; assumption.
Qed.

Lemma generateICO_entry_offsets_witness :
  exists w' out,
    generateICO sample_env 3 sample_images "out" sample_options sample_world
    = (w', Resolved "out/app.ico") /\
    files w' !! "out/app.ico" = Some out /\
    offset_field out 0 = Ok 38 /\
    offset_field out 1 = Ok 82.
Proof.
  destruct (generateICO_entry_offsets sample_env 3 sample_images "out"
              sample_options sample_world _ sample_readPNGs ltac:(discriminate))
    as [Hruns Hlayout].
  destruct Hruns as (w' & Hrun).
  { repeat split; [vm_compute; discriminate | vm_compute; discriminate |].
    repeat constructor; vm_compute; congruence. }
  { repeat constructor; vm_compute; lia. }
  { repeat split. }
  destruct (Hlayout w' _ Hrun) as (out & Hfile & Hentries).
  exists w', out. split; [exact Hrun |]. split; [exact Hfile |].
  destruct (Hentries 0%nat _ eq_refl) as (off0 & Hoff0 & Hfirst & _).
  destruct (Hentries 1%nat _ eq_refl) as (off1 & Hoff1 & _ & Hnext & _).
  destruct (Hnext 0%nat _ eq_refl eq_refl) as (off0' & Hoff0' & ->).
  rewrite Hoff0 in Hoff0'. injection Hoff0' as <-.
  rewrite (Hfirst eq_refl) in *. split; assumption.
Defined.

Lemma blocks_of_chunks (fuel : nat) (pngs : list PNG) : forall dibs,
  converted fuel pngs dibs ->
  Forall (fun png => createBitmapInfoHeader png BI_RGB
                     = Ok (bitmap_info_layout png BI_RGB)) pngs ->
  exists blocks,
    concat (block_chunks pngs dibs) = concat blocks /\
    Forall2 (fun png block =>
               exists header dib,
                 createBitmapInfoHeader png BI_RGB = Ok header /\
                 convertPNGtoDIB fuel (data png) (width png) (height png) BPP_ALPHA
                 = Ok dib /\
                 block = header ++ dib) pngs blocks.
Proof.
  unfold converted.
  induction pngs as [| png rest IH]; intros dibs Hconv Hhdrs;
    inversion Hconv as [| ? dib ? dibs' Hdib Hconv']; subst.
  - exists []. split; [reflexivity | constructor].
  - apply Forall_cons in Hhdrs as [Hhdr Hhdrs].
    destruct (IH dibs' Hconv' Hhdrs) as (blocks & Hcat & Hall).
    exists ((bitmap_info_layout png BI_RGB ++ dib) :: blocks). split.
    + cbn [block_chunks concat]. rewrite Hcat, <- app_assoc. reflexivity.
    + constructor; [| exact Hall].
      exists (bitmap_info_layout png BI_RGB), dib. auto.
Qed.

Lemma entries_of_chunks (pngs : list PNG) (start : Z) :
  (forall i png, pngs !! i = Some png ->
     createDirectory png (start + payload_size (take i pngs))
     = Ok (directory_layout png (start + payload_size (take i pngs)))) ->
  Forall2 (fun png entry => exists offset, createDirectory png offset = Ok entry)
    pngs (directory_chunks pngs start).
Proof.
  revert start. induction pngs as [| png rest IH]; intros start Hdirs; constructor.
  - exists start. specialize (Hdirs 0%nat png eq_refl).
    cbn [take payload_size] in Hdirs. rewrite Z.add_0_r in Hdirs. exact Hdirs.
  - apply IH. intros i p Hi. specialize (Hdirs (S i) p Hi).
    cbn [take payload_size] in Hdirs.
    replace (start + (buf_length (data png) + BITMAPINFOHEADER_SIZE)
             + payload_size (take i rest))
      with (start + (buf_length (data png) + BITMAPINFOHEADER_SIZE
                     + payload_size (take i rest))) by lia.
    exact Hdirs.
Qed.

(** C8. A container that generate has written begins with a file header
    of exactly 6 bytes holding, little-endian, reserved 0, type 1 and the
    image count; the directory entries follow, then the blocks, and the
    count is the number of directory entries, which is the number of
    blocks of a bitmap info header and pixel data, one of each per image.
    The container is written whenever the images fit its fields and the
    stream does not fail. *)
Theorem generateICO_header_count (env : Env) (fuel : nat)
  (images : list ImageInfo) (dir : string) (options : Options) (w : World)
  (pngs : list PNG) :
  readPNGs env (files w) images (opt_sizes options) = Ok pngs ->
  pngs <> [] ->
  (fits_container pngs -> enough_fuel fuel pngs ->
   no_faults env (dest_path env dir options) ->
   exists w', generateICO env fuel images dir options w
              = (w', Resolved (dest_path env dir options))) /\
  (forall w' path,
     generateICO env fuel images dir options w = (w', Resolved path) ->
     exists header entries blocks,
       files w' !! path = Some (header ++ concat entries ++ concat blocks) /\
       createFileHeader (Z.of_nat (length pngs)) = Ok header /\
       buf_length header = FILE_HEADER_SIZE /\
       readUInt16LE header 0 = Ok 0 /\
       readUInt16LE header 2 = Ok 1 /\
       readUInt16LE header 4 = Ok (Z.of_nat (length entries)) /\
       length entries = length blocks /\
       Forall2 (fun png entry => exists offset, createDirectory png offset = Ok entry)
         pngs entries /\
       Forall (fun entry => buf_length entry = ICO_DIRECTORY_SIZE) entries /\
       Forall2 (fun png block =>
                  exists bih dib,
                    createBitmapInfoHeader png BI_RGB = Ok bih /\
                    convertPNGtoDIB fuel (data png) (width png) (height png) BPP_ALPHA
                    = Ok dib /\
                    block = bih ++ dib) pngs blocks).
Proof.
  intros Hread Hne. split.
  - intros Hfit Hfuel Hnf.
    apply (generateICO_resolves env fuel images dir options w pngs); assumption.
  - intros w' path (_ & pngs' & stream & Hread' & _ & Hready & Hfile)%generateICO_Resolved.
    assert (pngs' = pngs) as -> by congruence.
    destruct (container_bytes fuel pngs stream Hready) as (dibs & Hconv & Hbytes).
    apply on_ready_Ok in Hready as (_ & _ & _ & Hcount & Hdirs & Hhdrs).
    destruct (blocks_of_chunks fuel pngs dibs Hconv Hhdrs) as (blocks & Hcat & Hblocks).
    assert (Forall2 (fun png entry => exists offset, createDirectory png offset = Ok entry)
              pngs (directory_chunks pngs (block_start pngs 0))) as Hentries.
    { apply entries_of_chunks. intros i png Hi. rewrite block_start_0.
      apply Hdirs. exact Hi. }
    exists (file_header_layout (Z.of_nat (length pngs))),
      (directory_chunks pngs (block_start pngs 0)), blocks.
    rewrite length_directory_chunks.
    split; [rewrite Hfile, Hbytes, Hcat; reflexivity |].
    split; [apply createFileHeader_eq; lia |].
    split; [reflexivity |].
    split; [apply readUInt16LE_slice; [lia | lia | reflexivity] |].
    split; [apply readUInt16LE_slice; [lia | lia | reflexivity] |].
    split; [apply readUInt16LE_slice; [lia | lia | reflexivity] |].
    split; [eapply Forall2_length; exact Hblocks |].
    split; [exact Hentries |].
    split; [apply Forall_directory_chunks | exact Hblocks].
Qed.

Lemma generateICO_header_count_witness :
  exists w' header rest,
    generateICO sample_env 3 sample_images "out" sample_options sample_world
    = (w', Resolved "out/app.ico") /\
    files w' !! "out/app.ico" = Some (header ++ rest) /\
    readUInt16LE header 4 = Ok 2.
Proof.
  destruct (generateICO_header_count sample_env 3 sample_images "out"
              sample_options sample_world _ sample_readPNGs ltac:(discriminate))
    as [Hruns Hlayout].
  destruct Hruns as (w' & Hrun).
  { repeat split; [vm_compute; discriminate | vm_compute; discriminate |].
    repeat constructor; vm_compute; congruence. }
  { repeat constructor; vm_compute; lia. }
  { repeat split. }
  destruct (Hlayout w' _ Hrun)
    as (header & entries & blocks & Hfile & _ & _ & _ & _ & Hcount & _ & Hentries & _).
  exists w', header, (concat entries ++ concat blocks).
  split; [exact Hrun |]. split; [exact Hfile |].
  apply Forall2_length in Hentries. rewrite <- Hentries in Hcount. exact Hcount.
Defined.

(** ** Failures of the generate operation *)

Lemma on_catch_Rejected (err e : error) (dest : string) (w w' : World) :
  on_catch err dest w = (w', Rejected e) -> files w' !! dest = None.
Proof.
  unfold on_catch, unlinkSync.
  destruct (files w !! dest) as [old |] eqn:Hold; intros H; inversion H; subst.
  - cbn [files]. apply lookup_delete_eq.
  - exact Hold.
Qed.


Lemma on_catch_existing (err : error) (dest : string) (w : World) (old : Buffer) :
  files w !! dest = Some old ->
  on_catch err dest w = (mkWorld (delete dest (files w)) (logged w), Rejected err).
Proof. intros H. unfold on_catch, unlinkSync. rewrite H. reflexivity. Qed.

Lemma on_catch_missing (err : error) (dest : string) (w : World) :
  files w !! dest = None -> on_catch err dest w = (w, Rejected ENOENT).
Proof. intros H. unfold on_catch, unlinkSync. rewrite H. reflexivity. Qed.

(** C3. With no image left after the size filter, [createIconFile]
    rejects with the no-matching-images error before anything is created,
    and no file is at the destination when generate returns. Which error
    generate rejects with depends on what was at the destination before:
    the no-matching-images error when a file was there (it is removed),
    but ENOENT when none was, raised by the unlink of the catch block. *)
Theorem generateICO_no_matching_images (env : Env) (fuel : nat)
  (images : list ImageInfo) (dir : string) (options : Options) (w : World) :
  readPNGs env (files w) images (opt_sizes options) = Ok [] ->
  createIconFile env fuel [] (dest_path env dir options) (files w)
  = (files w, Rejected NoMatchingPNG) /\
  (files w !! dest_path env dir options = None ->
   generateICO env fuel images dir options w
   = (logger_log "ICO:" w, Rejected ENOENT)) /\
  (forall old, files w !! dest_path env dir options = Some old ->
   generateICO env fuel images dir options w
   = (mkWorld (delete (dest_path env dir options) (files w)) (logged w ++ ["ICO:"%string]),
      Rejected NoMatchingPNG)) /\
  (forall w' e, generateICO env fuel images dir options w = (w', Rejected e) ->
   files w' !! dest_path env dir options = None).
Proof.
  intros Hread. split; [reflexivity |].
  unfold generateICO. cbn [logger_log files logged]. rewrite Hread.
  cbn [createIconFile length Nat.eqb].
  split; [| split].
  - intros Hnone. rewrite on_catch_missing by exact Hnone. reflexivity.
  - intros old Hold. rewrite (on_catch_existing _ _ _ old) by exact Hold. reflexivity.
  - intros w' e H. apply on_catch_Rejected in H. exact H.
Qed.

Lemma generateICO_no_matching_images_witness :
  generateICO sample_env 3 sample_images "out" (mkOptions None (Some [16])) sample_world
  = (logger_log "ICO:" sample_world, Rejected ENOENT).
Proof.
  apply (generateICO_no_matching_images sample_env 3 sample_images "out"
           (mkOptions None (Some [16])) sample_world);
    vm_compute; reflexivity.
Defined.


(** * Further properties *)

(** ** When the builders throw *)

Lemma write_int_outcome (n : nat) (lo hi : Z) (b : Buffer) (v off : Z) :
  returns_or_range_error (write_int n lo hi b v off).
Proof.
  unfold write_int, returns_or_range_error.
  destruct ((lo <=? v) && (v <=? hi) && in_bounds b off (Z.of_nat n)); eauto.
Qed.

Lemma bind_outcome {A B : Type} (x : outcome A) (f : A -> outcome B) :
  returns_or_range_error x -> (forall a, returns_or_range_error (f a)) ->
  returns_or_range_error (bind x f).
Proof.
  intros [[a ->] | ->] Hf; cbn [bind]; [apply Hf | right; reflexivity].
Qed.

Lemma Ok_outcome {A : Type} (a : A) : returns_or_range_error (Ok a).
Proof. left. eauto. Qed.

(** Settles the outcome of a builder: a chain of writes. *)
Ltac builder_outcome :=
  repeat first
    [ apply Ok_outcome
    | apply write_int_outcome
    | apply bind_outcome; [| intros ?] ].

Lemma not_Ok_throws {A : Type} (x : outcome A) :
  returns_or_range_error x -> (forall a, x <> Ok a) -> x = Throw ERR_OUT_OF_RANGE.
Proof. intros [[a ->] | ->] H; [destruct (H a eq_refl) | reflexivity]. Qed.

Lemma createFileHeader_throws (count : Z) :
  ~ 0 <= count <= 65535 -> createFileHeader count = Throw ERR_OUT_OF_RANGE.
Proof.
  intros Hout. apply not_Ok_throws.
  - unfold createFileHeader, writeUInt16LE. builder_outcome.
  - intros b [Hin _]%createFileHeader_Ok. contradiction.
Qed.

(** X1. [createFileHeader] returns for a count from 0 to 65535 and throws
    a RangeError for every other count. *)
Theorem createFileHeader_range (count : Z) :
  (0 <= count <= 65535 ->
   createFileHeader count = Ok (file_header_layout count)) /\
  (~ 0 <= count <= 65535 ->
   createFileHeader count = Throw ERR_OUT_OF_RANGE).
Proof.
  split; [apply createFileHeader_eq | apply createFileHeader_throws].
Qed.

(** X2. [createDirectory] returns exactly when width and height are not
    negative, the pixel data with its 40-byte header fit the 32-bit size
    field and the offset fits the 32-bit offset field; otherwise it throws
    a RangeError. A width or height above 255 is no error. *)
Theorem createDirectory_range (png : PNG) (offset : Z) :
  (directory_fits png offset ->
   createDirectory png offset = Ok (directory_layout png offset)) /\
  (~ directory_fits png offset ->
   createDirectory png offset = Throw ERR_OUT_OF_RANGE).
Proof.
  unfold directory_fits. split.
  - intros (Hw & Hh & Hs & Ho). apply createDirectory_eq; assumption.
  - intros Hout. apply not_Ok_throws.
    + unfold createDirectory, writeUInt8, writeUInt16LE, writeUInt32LE. builder_outcome.
    + intros d [Hin _]%createDirectory_Ok. contradiction.
Qed.

(** X3. [createBitmapInfoHeader] returns exactly when the width and twice
    the height fit a signed 32-bit field and the data length an unsigned
    one; otherwise it throws a RangeError. A height of 2^30 or more is
    refused, though the height itself would fit. *)
Theorem createBitmapInfoHeader_range (png : PNG) :
  (bitmap_info_fits png ->
   createBitmapInfoHeader png BI_RGB = Ok (bitmap_info_layout png BI_RGB)) /\
  (~ bitmap_info_fits png ->
   createBitmapInfoHeader png BI_RGB = Throw ERR_OUT_OF_RANGE) /\
  (1073741824 <= height png ->
   createBitmapInfoHeader png BI_RGB = Throw ERR_OUT_OF_RANGE).
Proof.
  unfold bitmap_info_fits.
  assert (forall b, createBitmapInfoHeader png BI_RGB = Ok b ->
            -2147483648 <= width png <= 2147483647 /\
            -2147483648 <= height png * 2 <= 2147483647 /\
            buf_length (data png) <= 4294967295) as Hok.
  { intros b [(Hw & Hh & _ & Hl) _]%createBitmapInfoHeader_Ok. auto. }
  assert (returns_or_range_error (createBitmapInfoHeader png BI_RGB)) as Hres.
  { unfold createBitmapInfoHeader, writeUInt16LE, writeUInt32LE, writeInt32LE.
    builder_outcome. }
  split; [| split].
  - intros (Hw & Hh & Hl).
    apply createBitmapInfoHeader_eq; unfold BI_RGB; lia.
  - intros Hout. apply not_Ok_throws; [exact Hres |].
    intros b Hb. apply Hout, (Hok b Hb).
  - intros Hbig. apply not_Ok_throws; [exact Hres |].
    intros b Hb. specialize (Hok b Hb). lia.
Qed.

(** X4. A directory entry that is built is 16 bytes long and holds, after
    the width and height bytes: colour count 0, reserved 0, planes 1, bits
    per pixel 32, as size the length of the pixel data plus the 40 bytes of
    its header, and the offset it was given. *)
Theorem createDirectory_fields (png : PNG) (offset : Z) (d : Buffer) :
  createDirectory png offset = Ok d ->
  buf_length d = ICO_DIRECTORY_SIZE /\
  readUInt8 d 2 = Ok 0 /\
  readUInt8 d 3 = Ok 0 /\
  readUInt16LE d 4 = Ok 1 /\
  readUInt16LE d 6 = Ok 32 /\
  readUInt32LE d 8 = Ok (buf_length (data png) + BITMAPINFOHEADER_SIZE) /\
  readUInt32LE d 12 = Ok offset.
Proof.
  intros [(Hw & Hh & Hs & Ho) ->]%createDirectory_Ok.
  assert (0 <= buf_length (data png)) by (unfold buf_length; lia).
  unfold BITMAPINFOHEADER_SIZE.
  split; [reflexivity |].
  repeat split;
    first [ apply readUInt32LE_slice | apply readUInt16LE_slice
          | apply readUInt8_slice ];
    first [ reflexivity | lia ].
Qed.

Lemma createDirectory_fields_witness :
  exists d,
    createDirectory (mkPNG 16 16 (alloc 1024)) 22 = Ok d /\
    readUInt32LE d 8 = Ok 1064 /\ readUInt32LE d 12 = Ok 22.
Proof.
  eexists. split; [vm_compute; reflexivity |].
  destruct (createDirectory_fields (mkPNG 16 16 (alloc 1024)) 22 _ eq_refl)
    as (_ & _ & _ & _ & _ & Hsize & Hoff).
  split; [exact Hsize | exact Hoff].
Defined.

(** ** Every run of the converter *)

Lemma src_readUInt8_Ok (pos v : Z) (m m' : mem) :
  src_readUInt8 pos m = Ok (v, m') ->
  0 <= pos < buf_length (m_src m) /\
  m' = mkMem (m_src m) (m_dest m) (m_trace m ++ [Rd pos]).
Proof.
  unfold src_readUInt8, readUInt8. intros H.
  apply bind_Ok in H as (u & (Hlo & Hhi & _)%read_uint_Ok & H).
  inversion H; subst. unfold buf_length. split; [lia | reflexivity].
Qed.

Lemma dest_writeUInt8_Ok (v pos : Z) (m m' : mem) :
  dest_writeUInt8 v pos m = Ok m' ->
  0 <= pos < buf_length (m_dest m) /\
  m_src m' = m_src m /\ length (m_dest m') = length (m_dest m) /\
  m_trace m' = m_trace m ++ [Wr pos].
Proof.
  unfold dest_writeUInt8, writeUInt8. intros H.
  apply bind_Ok in H as (d & (_ & Hlo & Hhi & ->)%write_int_Ok & H).
  inversion H; subst. cbn [m_src m_dest m_trace]. unfold buf_length.
  split; [lia |]. split; [reflexivity |]. split; [| reflexivity].
  apply (length_store_le 1).
Qed.

(** What one run of the loop body does to the memory, whatever the
    buffers are. *)
Lemma convert_pixel_Ok_inv (rowEnd row col : Z) (m m' : mem) :
  convert_pixel rowEnd row col m = Ok m' ->
  let p := row + col in
  let q := rowEnd - row + col in
  0 <= p /\ p + 3 < buf_length (m_src m) /\
  0 <= q /\ q + 3 < buf_length (m_dest m) /\
  m_src m' = m_src m /\ length (m_dest m') = length (m_dest m) /\
  m_trace m' = m_trace m ++ [Rd p; Rd (p + 1); Rd (p + 2); Rd (p + 3);
                             Wr q; Wr (q + 1); Wr (q + 2); Wr (q + 3)].
Proof.
  unfold convert_pixel. intros H. cbn zeta.
  apply bind_Ok in H as ([r m1] & [Hr ->]%src_readUInt8_Ok & H).
  apply bind_Ok in H as ([g m2] & [Hg ->]%src_readUInt8_Ok & H).
  apply bind_Ok in H as ([b m3] & [Hb ->]%src_readUInt8_Ok & H).
  apply bind_Ok in H as ([a m4] & [Ha ->]%src_readUInt8_Ok & H).
  apply bind_Ok in H as (m5 & (Hw0 & Hs5 & Hl5 & Ht5)%dest_writeUInt8_Ok & H).
  apply bind_Ok in H as (m6 & (Hw1 & Hs6 & Hl6 & Ht6)%dest_writeUInt8_Ok & H).
  apply bind_Ok in H as (m7 & (Hw2 & Hs7 & Hl7 & Ht7)%dest_writeUInt8_Ok & H).
  apply bind_Ok in H as (m8 & (Hw3 & Hs8 & Hl8 & Ht8)%dest_writeUInt8_Ok & H).
  inversion H; subst; clear H.
  cbn [m_src m_dest m_trace] in *. unfold buf_length in *.
  rewrite Ht8, Ht7, Ht6, Ht5, Hs8, Hs7, Hs6, Hs5, Hl8, Hl7, Hl6, Hl5.
  rewrite <- !app_assoc. cbn [app].
  repeat split; try lia.
Qed.

Lemma convert_pixel_sound (src : Buffer) (rowEnd row col : Z) (m m' : mem) :
  run_inv src m -> convert_pixel rowEnd row col m = Ok m' -> run_inv src m'.
Proof.
  intros (Hsrc & Hlen & Htr) H.
  apply convert_pixel_Ok_inv in H. cbn zeta in H.
  destruct H as (Hp0 & Hp3 & Hq0 & Hq3 & Hs & Hl & Ht).
  unfold buf_length in *. rewrite Hsrc in *.
  split; [exact Hs |]. split; [congruence |].
  rewrite Ht. apply Forall_app. split; [exact Htr |].
  rewrite Hlen in Hq3.
  repeat (apply Forall_cons; split; [cbn [access_pos]; unfold buf_length; lia |]).
  apply Forall_nil. exact I.
Qed.

Lemma for_col_sound (src : Buffer) (fuel : nat) :
  forall (cols bpp rowEnd row col : Z) (m m' : mem),
  run_inv src m -> for_col fuel cols bpp rowEnd row col m = Ok m' -> run_inv src m'.
Proof.
  induction fuel as [| fuel IH]; intros cols bpp rowEnd row col m m' Hinv H;
    cbn [for_col] in H; [discriminate |].
  destruct (col <? cols).
  - apply bind_Ok in H as (m1 & H1 & H).
    eapply IH; [| exact H]. eapply convert_pixel_sound; eassumption.
  - inversion H; subst. exact Hinv.
Qed.

Lemma for_row_sound (src : Buffer) (cfuel fuel : nat) :
  forall (cols rows bpp rowEnd row : Z) (m m' : mem),
  run_inv src m -> for_row fuel cfuel cols rows bpp rowEnd row m = Ok m' ->
  run_inv src m'.
Proof.
  induction fuel as [| fuel IH]; intros cols rows bpp rowEnd row m m' Hinv H;
    cbn [for_row] in H; [discriminate |].
  destruct (row <? rows).
  - apply bind_Ok in H as (m1 & H1 & H).
    eapply IH; [| exact H]. eapply for_col_sound; eassumption.
  - inversion H; subst. exact Hinv.
Qed.

(** X5. Whatever the buffer, the dimensions and the bytes per pixel: when
    the converter returns, the source buffer is as it was, the result is
    as long as the source, and every byte position it read or wrote was
    inside the buffers. *)
Theorem convert_run_stays_inside
  (fuel : nat) (src : Buffer) (width height bpp : Z) (m : mem) :
  convert_run fuel src width height bpp = Ok m ->
  m_src m = src /\
  convertPNGtoDIB fuel src width height bpp = Ok (m_dest m) /\
  buf_length (m_dest m) = buf_length src /\
  Forall (fun a => 0 <= access_pos a < buf_length src) (m_trace m).
Proof.
  intros Hrun. pose proof Hrun as H. unfold convert_run in H.
  apply for_row_sound with (src := src) in H.
  - destruct H as (Hs & Hl & Ht).
    split; [exact Hs |]. split; [apply convertPNGtoDIB_run; exact Hrun |].
    split; [unfold buf_length; congruence | exact Ht].
  - split; [reflexivity |]. split; [| constructor].
    cbn [m_dest]. rewrite length_alloc. unfold buf_length. lia.
Qed.

Lemma convert_run_stays_inside_witness :
  exists m,
    convert_run 3 (map byte_of [1; 2; 3; 4; 5; 6; 7; 8; 9]) 2 1 4 = Ok m /\
    buf_length (m_dest m) = 9 /\
    Forall (fun a => 0 <= access_pos a < 9) (m_trace m).
Proof.
  destruct (convert_run 3 (map byte_of [1; 2; 3; 4; 5; 6; 7; 8; 9]) 2 1 4)
    as [m | e |] eqn:Hrun;
    [| vm_compute in Hrun; discriminate | vm_compute in Hrun; discriminate].
  exists m. split; [reflexivity |].
  destruct (convert_run_stays_inside _ _ _ _ _ _ Hrun) as (_ & _ & Hlen & Htr).
  split; [exact Hlen | exact Htr].
Defined.

(** ** The accesses of a run that returns *)

Lemma seqZ_nonpos (m n : Z) : n <= 0 -> seqZ m n = [].
Proof.
  intros Hn. unfold seqZ. replace (Z.to_nat n) with 0%nat by lia. reflexivity.
Qed.

Lemma for_col_trace (w h r : Z) (fuel : nat) : forall (c : Z) (m m' : mem),
  for_col fuel (w * 4) 4 (h * (w * 4) - w * 4) (r * (w * 4)) (c * 4) m = Ok m' ->
  m_trace m' = m_trace m ++ (seqZ c (w - c) ≫= pixel_trace w h r).
Proof.
  induction fuel as [| fuel IH]; intros c m m' H; cbn [for_col] in H; [discriminate |].
  destruct (c * 4 <? w * 4) eqn:Hlt.
  - apply bind_Ok in H as (m1 & H1 & H).
    apply convert_pixel_Ok_inv in H1. cbn zeta in H1.
    destruct H1 as (_ & _ & _ & _ & _ & _ & Ht).
    replace (c * 4 + 4) with ((c + 1) * 4) in H by ring.
    rewrite (IH _ _ _ H), Ht, <- app_assoc. f_equal.
    rewrite (seqZ_cons c (w - c)) by lia. rewrite bind_cons.
    replace (Z.succ c) with (c + 1) by lia.
    replace (Z.pred (w - c)) with (w - (c + 1)) by lia.
    f_equal. unfold pixel_trace, src_pos, dst_pos.
    replace (h * (w * 4) - w * 4 - r * (w * 4) + c * 4)
      with ((h - 1 - r) * (w * 4) + c * 4) by ring.
    reflexivity.
  - inversion H; subst. apply Z.ltb_ge in Hlt.
    rewrite (seqZ_nonpos c (w - c)) by lia. symmetry. apply app_nil_r.
Qed.

Lemma for_row_trace (w h : Z) (cfuel fuel : nat) : forall (r : Z) (m m' : mem),
  0 < w ->
  for_row fuel cfuel (w * 4) (h * (w * 4)) 4 (h * (w * 4) - w * 4) (r * (w * 4)) m
  = Ok m' ->
  m_trace m' = m_trace m
               ++ (seqZ r (h - r) ≫= λ r', seqZ 0 w ≫= pixel_trace w h r').
Proof.
  induction fuel as [| fuel IH]; intros r m m' Hw H; cbn [for_row] in H; [discriminate |].
  destruct (r * (w * 4) <? h * (w * 4)) eqn:Hlt.
  - apply bind_Ok in H as (m1 & H1 & H).
    change 0 with (0 * 4) in H1 at 1. apply for_col_trace in H1.
    replace (r * (w * 4) + w * 4) with ((r + 1) * (w * 4)) in H by ring.
    rewrite (IH _ _ _ Hw H), H1, <- app_assoc. f_equal.
    apply Z.ltb_lt in Hlt. assert (r < h) by nia.
    rewrite (seqZ_cons r (h - r)) by lia. rewrite bind_cons.
    replace (Z.succ r) with (r + 1) by lia.
    replace (Z.pred (h - r)) with (h - (r + 1)) by lia.
    rewrite Z.sub_0_r. reflexivity.
  - inversion H; subst. apply Z.ltb_ge in Hlt.
    assert (h <= r) by nia.
    rewrite (seqZ_nonpos r (h - r)) by lia. symmetry. apply app_nil_r.
Qed.

(** The accesses of a run that returns are those of the image, whatever
    its buffer holds. *)
Lemma convert_run_trace (fuel : nat) (src : Buffer) (w h : Z) (m : mem) :
  0 <= w -> convert_run fuel src w h 4 = Ok m -> m_trace m = image_trace w h.
Proof.
  intros Hw H. unfold convert_run in H.
  destruct (decide (w = 0)) as [-> | Hne].
  - destruct fuel as [| fuel]; [discriminate |]. cbn [for_row] in H.
    rewrite Z.mul_0_l, Z.mul_0_r, Z.ltb_irrefl in H. inversion H; subst.
    symmetry. apply image_trace_empty. left. reflexivity.
  - change 0 with (0 * (w * 4)) in H at 1.
    apply for_row_trace in H; [| lia].
    rewrite H. cbn [m_trace app]. rewrite Z.sub_0_r. reflexivity.
Qed.

(** ** Runs that do not return *)

Lemma read_uint_outcome (n : nat) (b : Buffer) (off : Z) :
  returns_or_range_error (read_uint n b off).
Proof.
  unfold read_uint, returns_or_range_error. destruct (in_bounds b off (Z.of_nat n)); eauto.
Qed.

Lemma convert_pixel_outcome (rowEnd row col : Z) (m : mem) :
  returns_or_range_error (convert_pixel rowEnd row col m).
Proof.
  unfold convert_pixel, src_readUInt8, dest_writeUInt8, readUInt8, writeUInt8.
  repeat first
    [ apply Ok_outcome
    | apply write_int_outcome
    | apply read_uint_outcome
    | apply bind_outcome; [| intros ?]
    | match goal with p : (Z * mem)%type |- _ => destruct p end ].
Qed.

(** With fuel for the columns that are left, the inner loop returns or
    throws a RangeError. *)
Lemma for_col_outcome (w rowEnd row : Z) (n : nat) :
  forall (c : Z) (fuel : nat) (m : mem),
  Z.of_nat n = w - c -> (n < fuel)%nat ->
  returns_or_range_error (for_col fuel (w * 4) 4 rowEnd row (c * 4) m).
Proof.
  induction n as [| n IH]; intros c fuel m Hn Hfuel;
    (destruct fuel as [| fuel]; [lia |]); cbn [for_col].
  - assert ((c * 4 <? w * 4) = false) as -> by lia. apply Ok_outcome.
  - assert ((c * 4 <? w * 4) = true) as -> by lia.
    apply bind_outcome; [apply convert_pixel_outcome |].
    intros m1. replace (c * 4 + 4) with ((c + 1) * 4) by ring.
    apply IH; lia.
Qed.

Lemma for_row_outcome (w h rowEnd : Z) (cfuel : nat) (n : nat) :
  forall (r : Z) (fuel : nat) (m : mem),
  0 < w -> (Z.to_nat w < cfuel)%nat ->
  Z.of_nat n = h - r -> (n < fuel)%nat ->
  returns_or_range_error
    (for_row fuel cfuel (w * 4) (h * (w * 4)) 4 rowEnd (r * (w * 4)) m).
Proof.
  induction n as [| n IH]; intros r fuel m Hw Hcf Hn Hfuel;
    (destruct fuel as [| fuel]; [lia |]); cbn [for_row].
  - assert ((r * (w * 4) <? h * (w * 4)) = false) as -> by nia. apply Ok_outcome.
  - assert ((r * (w * 4) <? h * (w * 4)) = true) as -> by nia.
    apply bind_outcome.
    + change 0 with (0 * 4) at 1. apply (for_col_outcome w _ _ (Z.to_nat w)); lia.
    + intros m1. replace (r * (w * 4) + w * 4) with ((r + 1) * (w * 4)) by ring.
      apply IH; lia.
Qed.

Lemma convert_run_outcome (fuel : nat) (src : Buffer) (w h : Z) :
  0 <= w -> 0 <= h -> (Z.to_nat w < fuel)%nat -> (Z.to_nat h < fuel)%nat ->
  returns_or_range_error (convert_run fuel src w h 4).
Proof.
  intros Hw Hh Hfw Hfh. unfold convert_run.
  destruct (decide (w = 0)) as [-> | Hne].
  - destruct fuel as [| fuel]; [lia |]. cbn [for_row].
    rewrite Z.mul_0_l, Z.mul_0_r, Z.ltb_irrefl. apply Ok_outcome.
  - change 0 with (0 * (w * 4)) at 1.
    apply (for_row_outcome w h _ fuel (Z.to_nat h)); lia.
Qed.

(** X6. A buffer shorter than width x height x 4 makes the converter
    throw a RangeError: it does not return a result built from part of
    the image. *)
Theorem convertPNGtoDIB_short_buffer_throws
  (fuel : nat) (src : Buffer) (width height : Z) :
  0 < width -> 0 < height ->
  buf_length src < width * height * 4 ->
  (Z.to_nat width < fuel)%nat -> (Z.to_nat height < fuel)%nat ->
  convertPNGtoDIB fuel src width height BPP_ALPHA = Throw ERR_OUT_OF_RANGE.
Proof.
  intros Hw Hh Hshort Hfw Hfh. unfold BPP_ALPHA, convertPNGtoDIB.
  destruct (convert_run_outcome fuel src width height) as [[m Hrun] | Hthrow];
    try lia.
  - exfalso.
    pose proof (convert_run_trace fuel src width height m ltac:(lia) Hrun) as Htr.
    pose proof Hrun as Hin. unfold convert_run in Hin.
    apply for_row_sound with (src := src) in Hin.
    + destruct Hin as (_ & _ & Hin). rewrite Htr in Hin.
      rewrite Forall_forall in Hin.
      assert (Rd (src_pos width (height - 1) (width - 1) + 3)
                ∈ image_trace width height) as Hlast.
      { apply (image_trace_covers width height (height - 1) (width - 1));
          [lia | lia |].
        unfold pixel_trace. cbn zeta. rewrite !elem_of_cons. auto. }
      apply Hin in Hlast. cbn [access_pos] in Hlast. unfold src_pos in Hlast. lia.
    + split; [reflexivity |]. split; [| constructor].
      cbn [m_dest]. rewrite length_alloc. unfold buf_length. lia.
  - rewrite Hthrow. reflexivity.
Qed.

Lemma convertPNGtoDIB_short_buffer_throws_witness :
  convertPNGtoDIB 3 (map byte_of [1; 2; 3; 4; 5; 6; 7]) 1 2 BPP_ALPHA
  = Throw ERR_OUT_OF_RANGE.
Proof.
  apply (convertPNGtoDIB_short_buffer_throws 3 (map byte_of [1; 2; 3; 4; 5; 6; 7]) 1 2);
    [lia | lia | vm_compute; reflexivity | simpl; lia | simpl; lia].
Defined.

(** X7. The converter loses nothing: two buffers of width x height x 4
    bytes with the same converted image are the same buffer. *)
Theorem convertPNGtoDIB_injective
  (fuel : nat) (src1 src2 dib : Buffer) (width height : Z) :
  0 <= width -> 0 <= height ->
  buf_length src1 = width * height * 4 ->
  buf_length src2 = width * height * 4 ->
  (Z.to_nat width < fuel)%nat -> (Z.to_nat height < fuel)%nat ->
  convertPNGtoDIB fuel src1 width height BPP_ALPHA = Ok dib ->
  convertPNGtoDIB fuel src2 width height BPP_ALPHA = Ok dib ->
  src1 = src2.
Proof.
  intros Hw Hh Hl1 Hl2 Hfw Hfh H1 H2.
  destruct (convert_run_Ok src1 width height Hw Hh Hl1 fuel Hfw Hfh)
    as (m1 & Hrun1 & Hinv1).
  destruct (convert_run_Ok src2 width height Hw Hh Hl2 fuel Hfw Hfh)
    as (m2 & Hrun2 & Hinv2).
  unfold BPP_ALPHA in *.
  rewrite (convertPNGtoDIB_run _ _ _ _ _ _ Hrun1) in H1.
  rewrite (convertPNGtoDIB_run _ _ _ _ _ _ Hrun2) in H2.
  assert (m_dest m1 = m_dest m2) as Hsame by congruence.
  apply (buffer_eq_by_pixels _ _ width height Hw Hh Hl1 Hl2).
  intros r c Hr Hc. cbn zeta.
  destruct Hinv1 as (_ & _ & _ & Hpix1). destruct Hinv2 as (_ & _ & _ & Hpix2).
  specialize (Hpix1 r c ltac:(lia) Hc ltac:(lia)).
  specialize (Hpix2 r c ltac:(lia) Hc ltac:(lia)).
  cbn zeta in Hpix1, Hpix2. rewrite Hsame in Hpix1.
  destruct Hpix1 as (A0 & A1 & A2 & A3). destruct Hpix2 as (B0 & B1 & B2 & B3).
  rewrite <- A0, <- A1, <- A2, <- A3, B0, B1, B2, B3. auto.
Qed.

Lemma convertPNGtoDIB_injective_witness :
  map byte_of [1; 2; 3; 4] = map byte_of [1; 2; 3; 4].
Proof.
  apply (convertPNGtoDIB_injective 2 (map byte_of [1; 2; 3; 4])
           (map byte_of [1; 2; 3; 4]) (map byte_of [3; 2; 1; 4]) 1 1);
    [lia | lia | reflexivity | reflexivity | simpl; lia | simpl; lia
    | vm_compute; reflexivity | vm_compute; reflexivity].
Defined.



(** ** The converter only moves bytes *)

Lemma lookup_pixel_rows (f : Z -> Z -> Buffer) (w h r c : Z) (j : nat) :
  (forall r' c', length (f r' c') = 4%nat) ->
  0 <= w -> 0 <= r < h -> 0 <= c < w -> (j < 4)%nat ->
  (seqZ 0 h ≫= λ r', seqZ 0 w ≫= f r') !! (Z.to_nat (src_pos w r c) + j)%nat
  = f r c !! j.
Proof.
  intros Hf Hw Hr Hc Hj.
  replace (Z.to_nat (src_pos w r c) + j)%nat
    with (Z.to_nat r * (Z.to_nat w * 4) + (Z.to_nat c * 4 + j))%nat
    by (unfold src_pos; nia).
  rewrite (lookup_bind_blocks _ (Z.to_nat w * 4) _) with (x := r).
  - rewrite (lookup_bind_blocks _ 4 _) with (x := c).
    + reflexivity.
    + apply Hf.
    + exact Hj.
    + rewrite lookup_seqZ_lt by lia. f_equal. lia.
  - intros r'. rewrite (length_bind_blocks _ 4); [| apply Hf].
    rewrite length_seqZ. reflexivity.
  - nia.
  - rewrite lookup_seqZ_lt by lia. f_equal. lia.
Qed.

Lemma length_pixel_rows (f : Z -> Z -> Buffer) (w h : Z) :
  (forall r' c', length (f r' c') = 4%nat) -> 0 <= w -> 0 <= h ->
  buf_length (seqZ 0 h ≫= λ r', seqZ 0 w ≫= f r') = w * h * 4.
Proof.
  intros Hf Hw Hh. unfold buf_length.
  rewrite (length_bind_blocks _ (Z.to_nat w * 4)).
  - rewrite length_seqZ. nia.
  - intros r. rewrite (length_bind_blocks _ 4); [| apply Hf].
    rewrite length_seqZ. reflexivity.
Qed.

(** A buffer is its pixels, row after row, when each pixel [f r c] holds
    the four bytes the buffer has at row [r], column [c]. *)
Lemma buffer_as_pixel_rows (b : Buffer) (f : Z -> Z -> Buffer) (w h : Z) :
  0 <= w -> 0 <= h -> buf_length b = w * h * 4 ->
  (forall r c, 0 <= r < h -> 0 <= c < w ->
     exists x0 x1 x2 x3,
       f r c = [x0; x1; x2; x3] /\
       b !! Z.to_nat (src_pos w r c) = Some x0 /\
       b !! Z.to_nat (src_pos w r c + 1) = Some x1 /\
       b !! Z.to_nat (src_pos w r c + 2) = Some x2 /\
       b !! Z.to_nat (src_pos w r c + 3) = Some x3) ->
  (forall r c, length (f r c) = 4%nat) ->
  b = seqZ 0 h ≫= λ r, seqZ 0 w ≫= f r.
Proof.
  intros Hw Hh Hlen Hpix Hf.
  apply (buffer_eq_by_pixels _ _ w h Hw Hh Hlen);
    [apply length_pixel_rows; assumption |].
  intros r c Hr Hc. cbn zeta.
  destruct (Hpix r c Hr Hc) as (x0 & x1 & x2 & x3 & Hfrc & E0 & E1 & E2 & E3).
  pose proof (pixel_in_image w h r c Hr Hc) as [Hp0 _].
  fold (src_pos w r c) in Hp0.
  pose proof (lookup_pixel_rows f w h r c) as Hget.
  replace (Z.to_nat (src_pos w r c + 1)) with (Z.to_nat (src_pos w r c) + 1)%nat in * by lia.
  replace (Z.to_nat (src_pos w r c + 2)) with (Z.to_nat (src_pos w r c) + 2)%nat in * by lia.
  replace (Z.to_nat (src_pos w r c + 3)) with (Z.to_nat (src_pos w r c) + 3)%nat in * by lia.
  rewrite <- (Nat.add_0_r (Z.to_nat (src_pos w r c))) in E0.
  rewrite <- (Nat.add_0_r (Z.to_nat (src_pos w r c))) at 1 2.
  rewrite !Hget by (assumption || lia).
  rewrite Hfrc, E0, E1, E2, E3. auto.
Qed.

Lemma bind_Permutation_pointwise {A B : Type} (f g : A -> list B) (l : list A) :
  (forall x, x ∈ l -> f x ≡ₚ g x) -> l ≫= f ≡ₚ l ≫= g.
Proof.
  induction l as [| x l IH]; intros H; [reflexivity |].
  rewrite !bind_cons. apply Permutation_app.
  - apply H. apply list_elem_of_here.
  - apply IH. intros y Hy. apply H. apply list_elem_of_further. exact Hy.
Qed.

Lemma flipped_rows_Permutation (h : Z) :
  (λ r, h - 1 - r) <$> seqZ 0 h ≡ₚ seqZ 0 h.
Proof.
  apply NoDup_Permutation.
  - apply NoDup_fmap_2; [| apply NoDup_seqZ]. intros x y Hxy. lia.
  - apply NoDup_seqZ.
  - intros x. rewrite list_elem_of_fmap. setoid_rewrite elem_of_seqZ. split.
    + intros (y & -> & Hy). lia.
    + intros Hx. exists (h - 1 - x). lia.
Qed.

(** X17. The converter only moves bytes: for a buffer of width x height
    x 4 bytes the result is a permutation of the source, so every byte
    value occurs in the result as often as in the source. *)
Theorem convertPNGtoDIB_permutation
  (fuel : nat) (src : Buffer) (width height : Z) :
  0 <= width -> 0 <= height ->
  buf_length src = width * height * 4 ->
  (Z.to_nat width < fuel)%nat -> (Z.to_nat height < fuel)%nat ->
  exists dib,
    convertPNGtoDIB fuel src width height BPP_ALPHA = Ok dib /\ dib ≡ₚ src.
Proof.
  intros Hw Hh Hlen Hfw Hfh.
  destruct (convert_run_Ok src width height Hw Hh Hlen fuel Hfw Hfh)
    as (m & Hrun & Hinv).
  exists (m_dest m). split; [apply convertPNGtoDIB_run; exact Hrun |].
  pose proof (conv_inv_length _ _ _ _ _ _ Hinv) as Hdlen.
  destruct Hinv as (_ & _ & _ & Hpix).
  assert (forall r c, 0 <= r < height -> 0 <= c < width ->
            exists x0 x1 x2 x3,
              src !! Z.to_nat (src_pos width r c) = Some x0 /\
              src !! Z.to_nat (src_pos width r c + 1) = Some x1 /\
              src !! Z.to_nat (src_pos width r c + 2) = Some x2 /\
              src !! Z.to_nat (src_pos width r c + 3) = Some x3) as Hsrc.
  { intros r c Hr Hc.
    pose proof (pixel_in_image width height r c Hr Hc) as [Hp0 Hp3].
    fold (src_pos width r c) in Hp0, Hp3. unfold buf_length in Hlen.
    destruct (lookup_in_range src (src_pos width r c)) as [x0 H0]; [lia |].
    destruct (lookup_in_range src (src_pos width r c + 1)) as [x1 H1]; [lia |].
    destruct (lookup_in_range src (src_pos width r c + 2)) as [x2 H2]; [lia |].
    destruct (lookup_in_range src (src_pos width r c + 3)) as [x3 H3]; [lia |].
    exists x0, x1, x2, x3. auto. }
  (* the source, read pixel by pixel *)
  assert (src = seqZ 0 height ≫= λ r, seqZ 0 width ≫= λ c,
                  pixel_at src (src_pos width r c)) as Esrc.
  { apply buffer_as_pixel_rows; try assumption; [| reflexivity].
    intros r c Hr Hc. destruct (Hsrc r c Hr Hc) as (x0 & x1 & x2 & x3 & H0 & H1 & H2 & H3).
    exists x0, x1, x2, x3. split; [| auto].
    unfold pixel_at, byte_at. rewrite H0, H1, H2, H3. reflexivity. }
  (* the result: row [r] holds the pixels of source row [height - 1 - r],
     each with two bytes exchanged *)
  assert (m_dest m = seqZ 0 height ≫= λ r, seqZ 0 width ≫= λ c,
                       swapped_pixel_at src (src_pos width (height - 1 - r) c))
    as Edib.
  { apply buffer_as_pixel_rows; try assumption; [lia | | reflexivity].
    intros r c Hr Hc.
    destruct (Hsrc (height - 1 - r) c ltac:(lia) Hc)
      as (x0 & x1 & x2 & x3 & H0 & H1 & H2 & H3).
    specialize (Hpix (height - 1 - r) c ltac:(lia) Hc ltac:(lia)). cbn zeta in Hpix.
    rewrite dst_pos_flip in Hpix. destruct Hpix as (E0 & E1 & E2 & E3).
    exists x2, x1, x0, x3. split.
    - unfold swapped_pixel_at, byte_at. rewrite H0, H1, H2, H3. reflexivity.
    - rewrite E0, E1, E2, E3. auto. }
  rewrite Edib.
  transitivity (seqZ 0 height ≫= λ r, seqZ 0 width ≫= λ c,
                  pixel_at src (src_pos width r c));
    [| rewrite <- Esrc; reflexivity].
  change (seqZ 0 height ≫= λ r, seqZ 0 width ≫= λ c,
            swapped_pixel_at src (src_pos width (height - 1 - r) c))
    with (seqZ 0 height ≫=
            (λ r, seqZ 0 width ≫= λ c, swapped_pixel_at src (src_pos width r c))
            ∘ (λ r, height - 1 - r)).
  rewrite <- list_fmap_bind, flipped_rows_Permutation.
  apply bind_Permutation_pointwise. intros r _.
  apply bind_Permutation_pointwise. intros c _.
  unfold swapped_pixel_at, pixel_at.
  apply perm_trans with
    (l' := [byte_at src (src_pos width r c + 1); byte_at src (src_pos width r c + 2);
            byte_at src (src_pos width r c); byte_at src (src_pos width r c + 3)]).
  - apply perm_swap.
  - apply perm_trans with
      (l' := [byte_at src (src_pos width r c + 1); byte_at src (src_pos width r c);
              byte_at src (src_pos width r c + 2); byte_at src (src_pos width r c + 3)]).
    + apply perm_skip. apply perm_swap.
    + apply perm_swap.
Qed.

Lemma convertPNGtoDIB_permutation_witness :
  exists dib,
    convertPNGtoDIB 3 (map byte_of [1; 2; 3; 4; 5; 6; 7; 8]) 1 2 BPP_ALPHA = Ok dib /\
    dib ≡ₚ map byte_of [1; 2; 3; 4; 5; 6; 7; 8].
Proof.
  apply (convertPNGtoDIB_permutation 3 (map byte_of [1; 2; 3; 4; 5; 6; 7; 8]) 1 2);
    [lia | lia | reflexivity | simpl; lia | simpl; lia].
Defined.
(** ** What the two writers append *)

Lemma lookup_directory_chunks (pngs : list PNG) :
  forall (offset : Z) (i : nat) (png : PNG),
  pngs !! i = Some png ->
  directory_chunks pngs offset !! i
  = Some (directory_layout png (offset + payload_size (take i pngs))).
Proof.
  induction pngs as [| p rest IH]; intros offset i png Hi; [discriminate |].
  destruct i as [| i]; cbn [directory_chunks lookup list_lookup] in *.
  - injection Hi as ->. cbn [take payload_size]. rewrite Z.add_0_r. reflexivity.
  - rewrite (IH _ i png Hi). cbn [take payload_size]. do 2 f_equal. lia.
Qed.

Lemma lookup_block_chunks (fuel : nat) (pngs : list PNG) :
  forall (dibs : list Buffer) (i : nat) (png : PNG),
  converted fuel pngs dibs ->
  pngs !! i = Some png ->
  exists dib,
    convertPNGtoDIB fuel (data png) (width png) (height png) BPP_ALPHA = Ok dib /\
    block_chunks pngs dibs !! (2 * i)%nat = Some (bitmap_info_layout png BI_RGB) /\
    block_chunks pngs dibs !! (2 * i + 1)%nat = Some dib.
Proof.
  unfold converted.
  induction pngs as [| p rest IH]; intros dibs i png Hconv Hi; [discriminate |].
  inversion Hconv as [| ? d ? dibs' Hd Hconv']; subst.
  destruct i as [| i].
  - injection Hi as ->. exists d. auto.
  - cbn [lookup list_lookup] in Hi.
    destruct (IH dibs' i png Hconv' Hi) as (dib & Hdib & Hh & Hb).
    exists dib. split; [exact Hdib |].
    replace (2 * S i)%nat with (S (S (2 * i))) by lia.
    replace (S (S (2 * i)) + 1)%nat with (S (S (2 * i + 1))) by lia.
    cbn [block_chunks lookup list_lookup]. auto.
Qed.

(** X8. [writeDirectories] keeps what the stream holds and queues one
    directory entry per image, in the order of the images: entry [i] is
    the entry of image [i] at the offset where its block will begin. *)
Theorem writeDirectories_appends (pngs : list PNG) (stream out : Stream) :
  writeDirectories pngs stream = Ok out ->
  exists entries,
    out = stream ++ entries /\
    length entries = length pngs /\
    forall i png, pngs !! i = Some png ->
      exists entry,
        entries !! i = Some entry /\
        createDirectory png (block_start pngs i) = Ok entry.
Proof.
  unfold writeDirectories. intros [-> Hdirs]%writeDirectories_loop_Ok.
  eexists. split; [reflexivity |]. split; [apply length_directory_chunks |].
  intros i png Hi. specialize (Hdirs i png Hi). cbn zeta in Hdirs.
  eexists. split; [apply lookup_directory_chunks; exact Hi |].
  exact Hdirs.
Qed.

Lemma writeDirectories_appends_witness :
  exists entries,
    writeDirectories [mkPNG 1 1 (map byte_of [255; 0; 0; 255])] [[Byte.x2a]]
    = Ok ([[Byte.x2a]] ++ entries) /\
    length entries = 1%nat.
Proof.
  destruct (writeDirectories [mkPNG 1 1 (map byte_of [255; 0; 0; 255])] [[Byte.x2a]])
    as [out | e |] eqn:Hrun;
    [| vm_compute in Hrun; discriminate | vm_compute in Hrun; discriminate].
  destruct (writeDirectories_appends _ _ _ Hrun) as (entries & -> & Hlen & _).
  exists entries. split; [reflexivity | exact Hlen].
Defined.

(** X9. [writePNGs] keeps what the stream holds and queues two chunks
    per image, in the order of the images: the 40-byte bitmap info header
    of the image, then its converted pixel data, as long as the data. *)
Theorem writePNGs_appends (fuel : nat) (pngs : list PNG) (stream out : Stream) :
  writePNGs fuel pngs stream = Ok out ->
  exists chunks,
    out = stream ++ chunks /\
    length chunks = (2 * length pngs)%nat /\
    forall i png, pngs !! i = Some png ->
      exists header dib,
        chunks !! (2 * i)%nat = Some header /\
        chunks !! (2 * i + 1)%nat = Some dib /\
        createBitmapInfoHeader png BI_RGB = Ok header /\
        buf_length header = BITMAPINFOHEADER_SIZE /\
        convertPNGtoDIB fuel (data png) (width png) (height png) BPP_ALPHA = Ok dib /\
        buf_length dib = buf_length (data png).
Proof.
  intros (dibs & Hconv & -> & Hhdrs)%writePNGs_Ok.
  exists (block_chunks pngs dibs). split; [reflexivity |].
  split; [apply (length_block_chunks fuel); exact Hconv |].
  intros i png Hi.
  destruct (lookup_block_chunks fuel pngs dibs i png Hconv Hi) as (dib & Hdib & Hh & Hb).
  exists (bitmap_info_layout png BI_RGB), dib.
  split; [exact Hh |]. split; [exact Hb |].
  split; [exact (proj1 (Forall_forall _ _) Hhdrs png (list_elem_of_lookup_2 _ _ _ Hi)) |].
  split; [reflexivity |]. split; [exact Hdib |].
  apply convertPNGtoDIB_length in Hdib. exact Hdib.
Qed.

Lemma writePNGs_appends_witness :
  exists chunks,
    writePNGs 2 [mkPNG 1 1 (map byte_of [255; 0; 0; 255])] [[Byte.x2a]]
    = Ok ([[Byte.x2a]] ++ chunks) /\
    length chunks = 2%nat.
Proof.
  destruct (writePNGs 2 [mkPNG 1 1 (map byte_of [255; 0; 0; 255])] [[Byte.x2a]])
    as [out | e |] eqn:Hrun;
    [| vm_compute in Hrun; discriminate | vm_compute in Hrun; discriminate].
  destruct (writePNGs_appends _ _ _ _ Hrun) as (chunks & -> & Hlen & _).
  exists chunks. split; [reflexivity | exact Hlen].
Defined.

(** ** The size of the container *)

Lemma size_field_at (pre post : Buffer) (png : PNG) (offset : Z) (i : nat) :
  length pre = (6 + 16 * i)%nat ->
  buf_length (data png) + 40 <= 4294967295 ->
  size_field (pre ++ directory_layout png offset ++ post) i
  = Ok (buf_length (data png) + 40).
Proof.
  intros Hpre Hsize. unfold size_field.
  assert (0 <= buf_length (data png)) by (unfold buf_length; lia).
  apply readUInt32LE_slice; [unfold FILE_HEADER_SIZE, ICO_DIRECTORY_SIZE; lia | lia |].
  unfold slice, FILE_HEADER_SIZE, ICO_DIRECTORY_SIZE.
  replace (Z.to_nat (6 + 16 * Z.of_nat i + 8)) with (length pre + 8)%nat by lia.
  rewrite drop_app_add. reflexivity.
Qed.

Lemma length_concat_block_chunks (fuel : nat) (pngs : list PNG) : forall dibs,
  converted fuel pngs dibs ->
  buf_length (concat (block_chunks pngs dibs)) = payload_size pngs.
Proof.
  unfold converted. induction pngs as [| p rest IH]; intros dibs Hconv;
    inversion Hconv as [| ? d ? dibs' Hd Hconv']; subst; [reflexivity |].
  cbn [block_chunks concat payload_size].
  specialize (IH dibs' Hconv'). apply convertPNGtoDIB_length in Hd.
  unfold buf_length in *. rewrite !length_app, length_bitmap_info_layout.
  unfold BITMAPINFOHEADER_SIZE. lia.
Qed.

Lemma container_length (fuel : nat) (pngs : list PNG) (stream : Stream) :
  on_ready fuel pngs [] = Ok stream ->
  buf_length (concat stream) = block_start pngs (length pngs).
Proof.
  intros Hready.
  destruct (container_bytes fuel pngs stream Hready) as (dibs & Hconv & ->).
  pose proof (length_concat_block_chunks fuel pngs dibs Hconv) as Hblocks.
  unfold buf_length in *.
  rewrite !length_app, length_concat_directory_chunks.
  change (length (file_header_layout (Z.of_nat (length pngs)))) with 6%nat.
  unfold block_start. rewrite take_length_self.
  unfold FILE_HEADER_SIZE, ICO_DIRECTORY_SIZE. lia.
Qed.

Lemma container_size_field (fuel : nat) (pngs : list PNG) (stream : Stream)
  (i : nat) (png : PNG) :
  on_ready fuel pngs [] = Ok stream ->
  pngs !! i = Some png ->
  size_field (concat stream) i = Ok (buf_length (data png) + 40).
Proof.
  intros Hready Hi.
  destruct (container_bytes fuel pngs stream Hready) as (dibs & Hconv & ->).
  apply on_ready_Ok in Hready as (_ & _ & _ & _ & Hdirs & _).
  destruct (concat_directory_chunks pngs (block_start pngs 0) i png Hi)
    as (pre & post & -> & Hpre).
  specialize (Hdirs i png Hi).
  apply createDirectory_Ok in Hdirs as [(_ & _ & Hsize & _) _].
  replace (file_header_layout (Z.of_nat (length pngs))
           ++ (pre ++ directory_layout png
                        (block_start pngs 0 + payload_size (take i pngs)) ++ post)
           ++ concat (block_chunks pngs dibs))
    with ((file_header_layout (Z.of_nat (length pngs)) ++ pre)
          ++ directory_layout png (block_start pngs 0 + payload_size (take i pngs))
          ++ (post ++ concat (block_chunks pngs dibs)))
    by (rewrite <- !app_assoc; reflexivity).
  apply size_field_at; [| exact Hsize].
  rewrite length_app, Hpre. reflexivity.
Qed.

(** X10. In a container that generate has written, the blocks tile the
    file: the size field of each entry is the length of the image's pixel
    data plus 40, each block ends where the block of the next image
    begins, the last block ends at the end of the file, and the file is
    6 + 16 x count bytes plus the blocks long. *)
Theorem generateICO_blocks_tile (env : Env) (fuel : nat)
  (images : list ImageInfo) (dir : string) (options : Options) (w w' : World)
  (path : string) (pngs : list PNG) :
  readPNGs env (files w) images (opt_sizes options) = Ok pngs ->
  generateICO env fuel images dir options w = (w', Resolved path) ->
  exists out,
    files w' !! path = Some out /\
    buf_length out
    = FILE_HEADER_SIZE + ICO_DIRECTORY_SIZE * Z.of_nat (length pngs)
      + payload_size pngs /\
    forall i png, pngs !! i = Some png ->
      exists off size,
        offset_field out i = Ok off /\
        size_field out i = Ok size /\
        size = buf_length (data png) + BITMAPINFOHEADER_SIZE /\
        (forall next, pngs !! S i = Some next ->
           offset_field out (S i) = Ok (off + size)) /\
        (S i = length pngs -> off + size = buf_length out).
Proof.
  intros Hread (_ & pngs' & stream & Hread' & _ & Hready & Hfile)%generateICO_Resolved.
  assert (pngs' = pngs) as -> by congruence.
  pose proof (container_length fuel pngs stream Hready) as Hlen.
  exists (concat stream). split; [exact Hfile |]. split.
  - rewrite Hlen. unfold block_start. rewrite take_length_self. reflexivity.
  - intros i png Hi.
    exists (block_start pngs i), (buf_length (data png) + BITMAPINFOHEADER_SIZE).
    split; [apply (container_entry fuel pngs stream i png Hready Hi) |].
    split; [apply (container_size_field fuel pngs stream i png Hready Hi) |].
    split; [reflexivity |]. split.
    + intros next Hnext.
      replace (block_start pngs i + (buf_length (data png) + BITMAPINFOHEADER_SIZE))
        with (block_start pngs (S i))
        by (rewrite (block_start_succ pngs i png Hi); lia).
      apply (container_entry fuel pngs stream (S i) next Hready Hnext).
    + intros Hlast. rewrite Hlen, <- Hlast, (block_start_succ pngs i png Hi). lia.
Qed.

Lemma generateICO_blocks_tile_witness :
  exists w' out,
    generateICO sample_env 3 sample_images "out" sample_options sample_world
    = (w', Resolved "out/app.ico") /\
    files w' !! "out/app.ico" = Some out /\
    buf_length out = 130.
Proof.
  destruct (generateICO sample_env 3 sample_images "out" sample_options sample_world)
    as [w' s] eqn:Hrun.
  assert (s = Resolved "out/app.ico") as ->
    by (vm_compute in Hrun; congruence).
  destruct (generateICO_blocks_tile _ _ _ _ _ _ _ _ _ sample_readPNGs Hrun)
    as (out & Hfile & Hlen & _).
  exists w', out. split; [reflexivity |]. split; [exact Hfile |].
  rewrite Hlen. reflexivity.
Defined.

(** ** What generate leaves alone, and what it logs *)

Lemma createIconFile_other (env : Env) (fuel : nat) (pngs : list PNG)
  (path other : string) (fs fs' : gmap string Buffer) (s : settled unit) :
  createIconFile env fuel pngs path fs = (fs', s) -> other <> path ->
  fs' !! other = fs !! other.
Proof.
  unfold createIconFile. intros H Hne.
  destruct (length pngs =? 0)%nat; [inversion H; reflexivity |].
  destruct (open_fault env path); [inversion H; reflexivity |].
  destruct (on_ready fuel pngs []) as [stream | e |].
  - destruct (write_fault env) as [[n err] |]; [| destruct (end_fault env)];
      inversion H; subst; rewrite !lookup_insert_ne by congruence; reflexivity.
  - inversion H; subst. rewrite lookup_insert_ne by congruence. reflexivity.
  - inversion H; subst. rewrite lookup_insert_ne by congruence. reflexivity.
Qed.

Lemma on_catch_other (err : error) (dest other : string) (w w' : World)
  (s : settled string) :
  on_catch err dest w = (w', s) -> other <> dest ->
  files w' !! other = files w !! other /\ logged w' = logged w /\
  forall path, s <> Resolved path.
Proof.
  unfold on_catch, unlinkSync. intros H Hne.
  destruct (files w !! dest); inversion H; subst; cbn [files logged].
  - rewrite lookup_delete_ne by congruence. repeat split; discriminate.
  - repeat split; discriminate.
Qed.

(** X11. Whatever the outcome, generate touches no file but the
    destination: every other path holds after the call what it held
    before. *)
Theorem generateICO_touches_only_dest (env : Env) (fuel : nat)
  (images : list ImageInfo) (dir : string) (options : Options) (w w' : World)
  (s : settled string) (other : string) :
  generateICO env fuel images dir options w = (w', s) ->
  other <> dest_path env dir options ->
  files w' !! other = files w !! other.
Proof.
  unfold generateICO. cbn [logger_log files logged]. intros H Hne.
  destruct (readPNGs env (files w) images (opt_sizes options)) as [pngs | e |].
  - destruct (createIconFile env fuel pngs (dest_path env dir options) (files w))
      as [fs s0] eqn:Hc.
    pose proof (createIconFile_other _ _ _ _ other _ _ _ Hc Hne) as Hfs.
    destruct s0 as [[] | e | e |].
    + inversion H; subst. exact Hfs.
    + apply on_catch_other with (other := other) in H as (Hf & _); [| exact Hne].
      cbn [files] in Hf. congruence.
    + inversion H; subst. exact Hfs.
    + inversion H; subst. exact Hfs.
  - apply on_catch_other with (other := other) in H as (Hf & _); [| exact Hne].
    exact Hf.
  - inversion H; subst. reflexivity.
Qed.

Lemma generateICO_touches_only_dest_witness :
  files (fst (generateICO sample_env 3 sample_images "out" sample_options
                sample_world)) !! "in/1.png"
  = files sample_world !! "in/1.png".
Proof.
  destruct (generateICO sample_env 3 sample_images "out" sample_options sample_world)
    as [w' s] eqn:Hrun.
  cbn [fst]. apply (generateICO_touches_only_dest _ _ _ _ _ _ _ _ _ Hrun).
  vm_compute. discriminate.
Defined.

(** X12. The logger gets the line "ICO:" in every run, and after it the
    line naming the created file exactly when generate resolves; nothing
    else is logged, and a failed run never reports a file as created. *)
Theorem generateICO_log (env : Env) (fuel : nat)
  (images : list ImageInfo) (dir : string) (options : Options) (w w' : World)
  (s : settled string) :
  generateICO env fuel images dir options w = (w', s) ->
  logged w' =
    logged w ++ "ICO:"%string ::
      match s with
      | Resolved path => [("  Create: " +:+ path)%string]
      | _ => []
      end.
Proof.
  unfold generateICO. cbn [logger_log files logged]. intros H.
  assert (forall err dest w0 w1 s1,
            on_catch err dest w0 = (w1, s1) ->
            logged w1 = logged w0 /\ forall path, s1 <> Resolved path) as Hcatch.
  { unfold on_catch, unlinkSync. intros err dest w0 w1 s1 Hc.
    destruct (files w0 !! dest); inversion Hc; subst; split;
      try reflexivity; discriminate. }
  destruct (readPNGs env (files w) images (opt_sizes options)) as [pngs | e |].
  - destruct (createIconFile env fuel pngs (dest_path env dir options) (files w))
      as [fs [[] | e | e |]].
    + inversion H; subst. cbn [logger_log logged].
      rewrite <- app_assoc. reflexivity.
    + apply Hcatch in H as [-> Hs]. cbn [logged].
      destruct s as [path | | |]; [destruct (Hs path eq_refl) | ..]; reflexivity.
    + inversion H; subst. reflexivity.
    + inversion H; subst. reflexivity.
  - apply Hcatch in H as [-> Hs]. cbn [logged].
    destruct s as [path | | |]; [destruct (Hs path eq_refl) | ..]; reflexivity.
  - inversion H; subst. reflexivity.
Qed.

Lemma generateICO_log_witness :
  logged (fst (generateICO sample_env 3 sample_images "out"
                 (mkOptions None (Some [16])) sample_world))
  = ["ICO:"%string].
Proof.
  destruct (generateICO sample_env 3 sample_images "out"
              (mkOptions None (Some [16])) sample_world) as [w' s] eqn:Hrun.
  cbn [fst]. rewrite (generateICO_log _ _ _ _ _ _ _ _ Hrun).
  assert (s = Rejected ENOENT) as -> by (vm_compute in Hrun; congruence).
  reflexivity.
Defined.

(** ** Reading the images *)

Lemma map_outcome_Ok {A B : Type} (f : A -> outcome B) (l : list A) :
  forall ys, map_outcome f l = Ok ys <-> Forall2 (fun x y => f x = Ok y) l ys.
Proof.
  induction l as [| x l IH]; intros ys; cbn [map_outcome].
  - split.
    + intros H. inversion H. constructor.
    + intros H. inversion H. reflexivity.
  - split.
    + intros H. apply bind_Ok in H as (y & Hy & H).
      apply bind_Ok in H as (ys' & Hys & H). inversion H; subst.
      constructor; [exact Hy | apply IH; exact Hys].
    + intros H. inversion H as [| ? y ? ys' Hy Hys]; subst.
      rewrite Hy. cbn [bind]. rewrite (proj2 (IH ys') Hys). reflexivity.
Qed.

Lemma map_outcome_Throw {A B : Type} (f : A -> outcome B)
  (before after : list A) (x : A) (e : error) :
  Forall (fun a => exists b, f a = Ok b) before -> f x = Throw e ->
  map_outcome f (before ++ x :: after) = Throw e.
Proof.
  induction before as [| a before IH]; intros Hall Hx; cbn [app map_outcome].
  - rewrite Hx. reflexivity.
  - apply Forall_cons in Hall as [[b Hb] Hall].
    rewrite Hb. cbn [bind]. rewrite (IH Hall Hx). reflexivity.
Qed.

(** X13. [readPNGs] returns exactly when the file of every image the
    filter keeps is there and decodes, and then gives the decoded images
    in the order of the kept ones; the first kept image whose file is
    missing, or does not decode, decides the error thrown. *)
Theorem readPNGs_decodes_kept_images (env : Env) (fs : gmap string Buffer)
  (images : list ImageInfo) (sizes : list Z) :
  (forall pngs,
     readPNGs env fs images sizes = Ok pngs <->
     Forall2 (fun image png =>
                exists content,
                  fs !! filePath image = Some content /\
                  PNG_sync_read env content = Ok png)
       (filterImagesBySizes env images sizes) pngs) /\
  (forall before image after,
     filterImagesBySizes env images sizes = before ++ image :: after ->
     Forall (fun kept =>
               exists content png,
                 fs !! filePath kept = Some content /\
                 PNG_sync_read env content = Ok png) before ->
     (fs !! filePath image = None ->
      readPNGs env fs images sizes = Throw ENOENT) /\
     (forall content e,
        fs !! filePath image = Some content ->
        PNG_sync_read env content = Throw e ->
        readPNGs env fs images sizes = Throw e)).
Proof.
  unfold readPNGs, readFileSync. split.
  - intros pngs. rewrite map_outcome_Ok. split.
    + intros H. eapply Forall2_impl; [exact H |]. cbn.
      intros image png Hp. destruct (fs !! filePath image) as [content |];
        [| discriminate]. exists content. auto.
    + intros H. eapply Forall2_impl; [exact H |]. cbn.
      intros image png (content & -> & Hp). exact Hp.
  - intros before image after -> Hall.
    assert (Forall (fun a => exists b,
                      bind match fs !! filePath a with
                           | Some content => Ok content
                           | None => Throw ENOENT
                           end (fun data => PNG_sync_read env data) = Ok b) before)
      as Hall'.
    { eapply Forall_impl; [exact Hall |]. cbn.
      intros kept (content & png & -> & Hp). exists png. exact Hp. }
    split.
    + intros Hnone. apply map_outcome_Throw; [exact Hall' |].
      rewrite Hnone. reflexivity.
    + intros content e Hsome Hthrow. apply map_outcome_Throw; [exact Hall' |].
      rewrite Hsome. exact Hthrow.
Qed.

Lemma readPNGs_decodes_kept_images_witness :
  readPNGs sample_env (files sample_world)
    [mkImageInfo 1 "in/1.png"; mkImageInfo 2 "in/none.png"] [1; 2]
  = Throw ENOENT.
Proof.
  destruct (readPNGs_decodes_kept_images sample_env (files sample_world)
              [mkImageInfo 1 "in/1.png"; mkImageInfo 2 "in/none.png"] [1; 2])
    as [_ Hthrow].
  apply (Hthrow [mkImageInfo 1 "in/1.png"] (mkImageInfo 2 "in/none.png") []).
  - reflexivity.
  - constructor; [| constructor].
    eexists. eexists. split; vm_compute; reflexivity.
  - vm_compute. reflexivity.
Defined.

(** ** Failures before and inside the listener *)

(** X14. When the images cannot be read, generate deletes a file that is
    already at the destination and rejects with the error of the read;
    with no file there it rejects with ENOENT, raised by the unlink of the
    catch block. *)
Theorem generateICO_read_failure (env : Env) (fuel : nat)
  (images : list ImageInfo) (dir : string) (options : Options) (w : World)
  (e : error) :
  readPNGs env (files w) images (opt_sizes options) = Throw e ->
  (forall old,
     files w !! dest_path env dir options = Some old ->
     generateICO env fuel images dir options w
     = (mkWorld (delete (dest_path env dir options) (files w))
          (logged w ++ ["ICO:"%string]),
        Rejected e)) /\
  (files w !! dest_path env dir options = None ->
   generateICO env fuel images dir options w
   = (logger_log "ICO:" w, Rejected ENOENT)).
Proof.
  intros Hread. unfold generateICO. cbn [logger_log files logged]. rewrite Hread.
  split.
  - intros old Hold. rewrite (on_catch_existing _ _ _ old) by exact Hold. reflexivity.
  - intros Hnone. rewrite on_catch_missing by exact Hnone. reflexivity.
Qed.

Lemma generateICO_read_failure_witness :
  generateICO sample_env 3 [mkImageInfo 1 "in/none.png"] "out"
    (mkOptions None (Some [1])) sample_world
  = (logger_log "ICO:" sample_world, Rejected ENOENT).
Proof.
  apply (generateICO_read_failure sample_env 3 [mkImageInfo 1 "in/none.png"] "out"
           (mkOptions None (Some [1])) sample_world ENOENT);
    vm_compute; reflexivity.
Defined.

(** X15. An exception thrown inside the 'ready' listener is not turned
    into a rejection: generate neither resolves nor rejects, the catch
    block does not run, and the file the stream created stays at the
    destination. More than 65535 images are one way into this: the file
    header cannot hold the count. *)
Theorem generateICO_listener_throws (env : Env) (fuel : nat)
  (images : list ImageInfo) (dir : string) (options : Options) (w : World)
  (pngs : list PNG) :
  readPNGs env (files w) images (opt_sizes options) = Ok pngs ->
  pngs <> [] ->
  open_fault env (dest_path env dir options) = None ->
  (forall e, on_ready fuel pngs [] = Throw e ->
     exists w',
       generateICO env fuel images dir options w = (w', Uncaught e) /\
       is_Some (files w' !! dest_path env dir options) /\
       logged w' = logged w ++ ["ICO:"%string]) /\
  (65535 < Z.of_nat (length pngs) ->
   on_ready fuel pngs [] = Throw ERR_OUT_OF_RANGE).
Proof.
  intros Hread Hne Hopen. split.
  - intros e Hthrow. unfold generateICO. cbn [logger_log files logged].
    rewrite Hread. unfold createIconFile.
    destruct pngs as [| png rest]; [congruence |]. cbn [length Nat.eqb].
    rewrite Hopen, Hthrow.
    eexists. split; [reflexivity |]. cbn [files logged].
    rewrite lookup_insert_eq. split; [eauto | reflexivity].
  - intros Hmany. unfold on_ready.
    rewrite createFileHeader_throws by lia. reflexivity.
Qed.

Lemma generateICO_listener_throws_witness :
  exists w',
    generateICO sample_env 3 [mkImageInfo 1 "in/cut.png"] "out"
      (mkOptions None (Some [1]))
      (mkWorld (<["in/cut.png" := map byte_of [1; 1; 255; 0]]> ∅) [])
    = (w', Uncaught ERR_OUT_OF_RANGE) /\
    is_Some (files w' !! "out/app.ico").
Proof.
  destruct (generateICO_listener_throws sample_env 3 [mkImageInfo 1 "in/cut.png"]
              "out" (mkOptions None (Some [1]))
              (mkWorld (<["in/cut.png" := map byte_of [1; 1; 255; 0]]> ∅) [])
              [mkPNG 1 1 (map byte_of [255; 0])])
    as [Hthrows _];
    [vm_compute; reflexivity | discriminate | reflexivity |].
  destruct (Hthrows ERR_OUT_OF_RANGE) as (w' & Hrun & Hfile & _);
    [vm_compute; reflexivity |].
  exists w'. split; [exact Hrun | exact Hfile].
Defined.

(** X16. Generate resolves only when nothing had to be cut to fit a
    field: the count is at most 65535, and the values of every directory
    entry and of every bitmap info header have room in their fields. *)
Theorem generateICO_resolved_fits (env : Env) (fuel : nat)
  (images : list ImageInfo) (dir : string) (options : Options) (w w' : World)
  (path : string) (pngs : list PNG) :
  readPNGs env (files w) images (opt_sizes options) = Ok pngs ->
  generateICO env fuel images dir options w = (w', Resolved path) ->
  pngs <> [] /\
  Z.of_nat (length pngs) <= 65535 /\
  forall i png, pngs !! i = Some png ->
    directory_fits png (block_start pngs i) /\ bitmap_info_fits png.
Proof.
  intros Hread (_ & pngs' & stream & Hread' & Hne & Hready & _)%generateICO_Resolved.
  assert (pngs' = pngs) as -> by congruence.
  apply on_ready_Ok in Hready as (_ & _ & _ & Hcount & Hdirs & Hhdrs).
  split; [exact Hne |]. split; [exact Hcount |].
  intros i png Hi. split.
  - specialize (Hdirs i png Hi). apply createDirectory_Ok in Hdirs as [Hfit _].
    exact Hfit.
  - rewrite Forall_forall in Hhdrs.
    specialize (Hhdrs png (list_elem_of_lookup_2 _ _ _ Hi)).
    apply createBitmapInfoHeader_Ok in Hhdrs as [(Hw & Hh & _ & Hl) _].
    unfold bitmap_info_fits. auto.
Qed.

Lemma generateICO_resolved_fits_witness :
  directory_fits (mkPNG 1 2 (map byte_of [1; 2; 3; 4; 5; 6; 7; 8])) 82.
Proof.
  destruct (generateICO sample_env 3 sample_images "out" sample_options sample_world)
    as [w' s] eqn:Hrun.
  assert (s = Resolved "out/app.ico") as ->
    by (vm_compute in Hrun; congruence).
  destruct (generateICO_resolved_fits _ _ _ _ _ _ _ _ _ sample_readPNGs Hrun)
    as (_ & _ & Hfits).
  exact (proj1 (Hfits 1%nat _ eq_refl)).
Defined.
